(** * File chunking and merging: a model of [program.cpp] and its properties

    The program splits a file into numbered part files and joins them
    again, with one pipeline for binary files ([chunkFile], [joinFile]) and
    one for CSV files ([chunkCSV], [joinCSV]).  Everything the four
    functions do is file and console traffic, so the model is an explicit
    store: a finite map from file names to byte contents, the set of names
    that cannot be opened for writing, and the lines printed so far.

    Conventions of the model.
    - Stream operations act on the store at once: there is no user-space
      buffer between a stream and its file.  The theorems below are stated
      for runs in which the source, the parts and the output are distinct
      files, where buffering cannot be observed; the one exception is a
      source that is itself part 1, which is truncated before its first
      byte is read.
    - Text streams are those of a POSIX system: no byte is translated on
      reading or writing.  Input and output errors other than a failed
      open are not part of the model.
    - The chunk buffer of [chunkFile] is not part of the store.  The
      model is that of a run in which [new char[chunkSize]] is granted and
      the chunk size is a count that [read] takes, which needs a chunk
      size of at most [STREAMSIZE_MAX]: from [2^63] bytes on, the
      allocation throws once the source is open, and the program ends
      before it opens a part.
    - The C++ loops are [Fixpoint]s on a fuel argument; a result [Done] is
      always proved for every large enough fuel.
    - [unsigned long] and [size_t] are 64 bits wide and [unsigned int] is 32
      bits wide; their arithmetic wraps (modulo [2^64] and [2^32]).
      Incrementing an [int] that holds [INT_MAX] has no defined
      behaviour in C++ and ends a run with [Overflow]. *)

From Stdlib Require Import ZArith Lia List.
From Stdlib Require Import Strings.String Strings.Ascii Strings.Byte.
From Stdlib Require Import DecimalString DecimalZ.
From stdpp Require Import base gmap strings list.

Open Scope Z_scope.

(** ** Machine integers *)

Definition INT_MAX : Z := 2 ^ 31 - 1.
Definition UINT_MOD : Z := 2 ^ 32.
Definition ULONG_MOD : Z := 2 ^ 64.

(** The largest [std::streamsize], a signed 64-bit count; it is also the
    largest size an array of [char] can have. *)
Definition STREAMSIZE_MAX : Z := 2 ^ 63 - 1.

(** [std::to_string] on an integer: decimal digits, a leading minus sign
    for negative values. *)
Definition to_string (z : Z) : string :=
  NilZero.string_of_int (Z.to_int z).

(** ** The store *)

Abbreviation bytes := (list byte).

Inductive chan : Set := Cout | Cerr.

Record world : Type := World {
  files : gmap string bytes;      (* regular files that exist and can be read *)
  denied : gset string;           (* names that cannot be opened for writing *)
  console : list (chan * string)  (* lines printed, oldest first *)
}.

Definition print (w : world) (c : chan) (msg : string) : world :=
  {| files := files w; denied := denied w; console := console w ++ [(c, msg)] |}.

Definition content (w : world) (name : string) : bytes :=
  default [] (files w !! name).

(** Result of running a loop with a bound on the number of iterations. *)
Inductive outcome (A : Type) : Type :=
  | Done (a : A)
  | OutOfFuel
  | Overflow.
Arguments Done {A} a.
Arguments OutOfFuel {A}.
Arguments Overflow {A}.

(** ** Streams *)

(** An open [ifstream]: the file it reads, the read offset and the two
    state bits the program looks at. *)
Record ifstream : Type := IStream {
  in_path : string;
  in_pos : nat;
  in_eof : bool;
  in_fail : bool
}.

(** [ifstream s(name)]: open for reading; fails when the file is absent. *)
Definition ifstream_open (w : world) (name : string) : option ifstream :=
  match files w !! name with
  | Some _ => Some {| in_path := name; in_pos := 0; in_eof := false; in_fail := false |}
  | None => None
  end.

(** The bytes between the read offset and the end of the file. *)
Definition in_rest (w : world) (s : ifstream) : bytes :=
  drop (in_pos s) (content w (in_path s)).

(** [s.read(buffer, n)]: the bytes read ([gcount] is their number) and the
    stream afterwards.  Reading fewer than [n] bytes sets [eofbit] and
    [failbit]; a stream that is not good reads nothing. *)
Definition ifstream_read (w : world) (s : ifstream) (n : Z) : bytes * ifstream :=
  if in_eof s || in_fail s then
    ([], {| in_path := in_path s; in_pos := in_pos s; in_eof := in_eof s; in_fail := true |})
  else
    let data := take (Z.to_nat n) (in_rest w s) in
    if Z.of_nat (length data) <? n then
      (data, {| in_path := in_path s; in_pos := (in_pos s + length data)%nat;
                in_eof := true; in_fail := true |})
    else
      (data, {| in_path := in_path s; in_pos := (in_pos s + length data)%nat;
                in_eof := false; in_fail := false |}).

Definition LF : byte := x0a.
Definition CR : byte := x0d.

Definition is_LF (b : byte) : bool := Byte.eqb b LF.

(** The characters [getline] extracts before the delimiter or the end. *)
Fixpoint until_LF (l : bytes) : bytes :=
  match l with
  | [] => []
  | b :: l' => if is_LF b then [] else b :: until_LF l'
  end.

(** [getline(s, line)]: [Some line] when the stream is still good
    afterwards ([failbit] clear), [None] otherwise.  The newline is
    extracted and dropped; reaching the end of the file sets [eofbit], and
    [failbit] too when no character at all was extracted. *)
Definition getline (w : world) (s : ifstream) : option bytes * ifstream :=
  if in_eof s || in_fail s then
    (None, {| in_path := in_path s; in_pos := in_pos s; in_eof := in_eof s; in_fail := true |})
  else
    match in_rest w s with
    | [] => (None, {| in_path := in_path s; in_pos := in_pos s; in_eof := true; in_fail := true |})
    | rest =>
        let line := until_LF rest in
        if (length line <? length rest)%nat then
          (Some line, {| in_path := in_path s; in_pos := (in_pos s + length line + 1)%nat;
                         in_eof := false; in_fail := false |})
        else
          (Some line, {| in_path := in_path s; in_pos := (in_pos s + length line)%nat;
                         in_eof := true; in_fail := false |})
    end.

(** [ofstream::open(name, ios::out | ios::trunc)]: the store with the file
    created or emptied, or [None] when the name cannot be opened. *)
Definition ofstream_open (w : world) (name : string) : option world :=
  if decide (name ∈ denied w) then None
  else Some {| files := <[name := []]> (files w); denied := denied w; console := console w |}.

(** [out.write(data, n)] and [out << data] on the open file [name]. *)
Definition ofstream_write (w : world) (name : string) (data : bytes) : world :=
  {| files := <[name := content w name ++ data]> (files w);
     denied := denied w; console := console w |}.

(** ** File names *)

(** [s.find_last_of(c)]: index of the last occurrence, [None] for [npos]. *)
Fixpoint find_last_of (c : ascii) (s : string) : option nat :=
  match s with
  | EmptyString => None
  | String a s' =>
      match find_last_of c s' with
      | Some i => Some (S i)
      | None => if Ascii.eqb a c then Some 0%nat else None
      end
  end.

(** [s.substr(pos)]: the suffix that starts at [pos]. *)
Definition substr (pos : nat) (s : string) : string :=
  String.substring pos (String.length s - pos) s.

(** The extension [chunkFile] and [main] take from a path: from the last
    dot to the end, empty when the path has no dot. *)
Definition extension_of (path : string) : string :=
  match find_last_of "."%char path with
  | Some dotPos => substr dotPos path
  | None => ""
  end.

(** ** [chunkFile] *)

(** The [while (!fileStream.eof())] loop; the result is the store and the
    value of [counter] when the loop ends.  [read] takes its count as a
    [std::streamsize]: [chunkSize] is passed as it is, which is the
    conversion of the source for [chunkSize <= STREAMSIZE_MAX]. *)
Fixpoint chunkFile_loop (fuel : nat) (chunkName originalExtension : string)
    (chunkSize : Z) (w : world) (fileStream : ifstream) (counter : Z)
    : outcome (world * Z) :=
  match fuel with
  | O => OutOfFuel
  | S fuel' =>
      if in_eof fileStream then Done (w, counter)
      else
        let fullChunkName := chunkName +:+ to_string counter +:+ originalExtension in
        match ofstream_open w fullChunkName with
        | Some w1 =>
            let '(buffer, fileStream') := ifstream_read w1 fileStream chunkSize in
            let w2 := ofstream_write w1 fullChunkName buffer in
            if counter =? INT_MAX then Overflow
            else chunkFile_loop fuel' chunkName originalExtension chunkSize
                   w2 fileStream' (counter + 1)
        | None =>
            chunkFile_loop fuel' chunkName originalExtension chunkSize
              w fileStream counter
        end
  end.

(** The buffer [new char[chunkSize]], allocated once the source is open,
    is taken as granted.  A chunk size above [STREAMSIZE_MAX] is outside
    the model: there the allocation throws [std::bad_alloc] and the loop
    is never entered. *)
Definition chunkFile (fuel : nat) (w : world) (fullFilePath chunkName : string)
    (chunkSize : Z) : outcome world :=
  match ifstream_open w fullFilePath with
  | Some fileStream =>
      let originalExtension := extension_of fullFilePath in
      match chunkFile_loop fuel chunkName originalExtension chunkSize w fileStream 1 with
      | Done (w', counter) =>
          Done (print w' Cout
                  ("Binary chunking complete! " +:+ to_string (counter - 1)
                   +:+ " files created."))
      | OutOfFuel => OutOfFuel
      | Overflow => Overflow
      end
  | None => Done (print w Cout "Error opening file!")
  end.

(** ** [joinFile] *)

(** The [while (fileFound)] loop.  [counter] is an [unsigned int]. *)
Fixpoint joinFile_loop (fuel : nat) (chunkName fileOutput extension : string)
    (w : world) (counter : Z) : outcome world :=
  match fuel with
  | O => OutOfFuel
  | S fuel' =>
      let fileName := chunkName +:+ to_string counter +:+ extension in
      match ifstream_open w fileName with
      | Some fileInput =>
          let fileSize := length (content w fileName) in
          let '(inputBuffer, _) := ifstream_read w fileInput (Z.of_nat fileSize) in
          let w1 := ofstream_write w fileOutput (take fileSize inputBuffer) in
          joinFile_loop fuel' chunkName fileOutput extension w1
            ((counter + 1) mod UINT_MOD)
      | None => Done w
      end
  end.

Definition joinFile (fuel : nat) (w : world) (chunkName fileOutput extension : string)
    : outcome world :=
  match ofstream_open w fileOutput with
  | None => Done (print w Cerr "Error: Unable to open output file for writing.")
  | Some w0 =>
      match joinFile_loop fuel chunkName fileOutput extension w0 1 with
      | Done w' => Done (print w' Cout "Binary file assembly complete!")
      | OutOfFuel => OutOfFuel
      | Overflow => Overflow
      end
  end.

(** ** [chunkCSV] *)

(** How the line loop of [chunkCSV] ends: it runs out of lines with some
    value of [counter], or it returns early because a part could not be
    opened. *)
Inductive csv_exit : Type :=
  | LinesDone (counter : Z)
  | PartOpenFailed.

(** [output << line << "\n"] on the part that is open, if any. *)
Definition output_line (w : world) (output : option string) (line : bytes) : world :=
  match output with
  | Some name => ofstream_write w name (line ++ [LF])
  | None => w
  end.

(** The [while (getline(csvInput, line))] loop.  [output] is the name of
    the part that is open; [currentSize] is an [unsigned long]. *)
Fixpoint chunkCSV_loop (fuel : nat) (chunkPrefix : string) (chunkSize : Z)
    (headerLine : bytes) (w : world) (csvInput : ifstream)
    (output : option string) (currentSize counter : Z)
    : outcome (world * csv_exit) :=
  match fuel with
  | O => OutOfFuel
  | S fuel' =>
      match getline w csvInput with
      | (None, _) => Done (w, LinesDone counter)
      | (Some line, csvInput') =>
          let size := Z.of_nat (length line) in
          if (currentSize =? 0) || (chunkSize <? (currentSize + size) mod ULONG_MOD) then
            let chunkName := chunkPrefix +:+ to_string counter +:+ ".csv" in
            match ofstream_open w chunkName with
            | None =>
                Done (print w Cerr "Error: Unable to open chunk file for writing.",
                      PartOpenFailed)
            | Some w1 =>
                let w2 := ofstream_write w1 chunkName (headerLine ++ [LF]) in
                if counter =? INT_MAX then Overflow
                else
                  let w3 := ofstream_write w2 chunkName (line ++ [LF]) in
                  chunkCSV_loop fuel' chunkPrefix chunkSize headerLine w3 csvInput'
                    (Some chunkName) ((0 + size) mod ULONG_MOD) (counter + 1)
            end
          else
            let w1 := output_line w output line in
            chunkCSV_loop fuel' chunkPrefix chunkSize headerLine w1 csvInput'
              output ((currentSize + size) mod ULONG_MOD) counter
      end
  end.

Definition chunkCSV (fuel : nat) (w : world) (csvPath chunkPrefix : string)
    (chunkSize : Z) : outcome world :=
  match ifstream_open w csvPath with
  | Some csvInput =>
      let finish (w' : world) (counter : Z) :=
        print w' Cout
          ("CSV chunking complete! " +:+ to_string (counter - 1) +:+ " files created.") in
      match getline w csvInput with
      | (Some headerLine, csvInput') =>
          match chunkCSV_loop fuel chunkPrefix chunkSize headerLine w csvInput' None 0 1 with
          | Done (w', LinesDone counter) => Done (finish w' counter)
          | Done (w', PartOpenFailed) => Done w'
          | OutOfFuel => OutOfFuel
          | Overflow => Overflow
          end
      | (None, _) => Done (finish w 1)
      end
  | None => Done (print w Cerr "Error: Unable to open CSV file!")
  end.

(** ** [joinCSV] *)

(** The inner [while (getline(chunkInput, line))] loop. *)
Fixpoint joinCSV_copy (fuel : nat) (outputFile : string) (w : world)
    (chunkInput : ifstream) : outcome world :=
  match fuel with
  | O => OutOfFuel
  | S fuel' =>
      match getline w chunkInput with
      | (Some line, chunkInput') =>
          joinCSV_copy fuel' outputFile
            (ofstream_write w outputFile (line ++ [LF])) chunkInput'
      | (None, _) => Done w
      end
  end.

(** The outer [while (true)] loop over the numbered parts. *)
Fixpoint joinCSV_loop (fuel : nat) (chunkPrefix outputFile : string) (w : world)
    (isFirstChunk : bool) (counter : Z) : outcome world :=
  match fuel with
  | O => OutOfFuel
  | S fuel' =>
      let chunkName := chunkPrefix +:+ to_string counter +:+ ".csv" in
      match ifstream_open w chunkName with
      | None => Done w
      | Some chunkInput =>
          let '(first, chunkInput') := getline w chunkInput in
          let '(w1, isFirstChunk') :=
            match first with
            | Some line =>
                if isFirstChunk
                then (ofstream_write w outputFile (line ++ [LF]), false)
                else (w, isFirstChunk)
            | None => (w, isFirstChunk)
            end in
          match joinCSV_copy fuel' outputFile w1 chunkInput' with
          | Done w2 =>
              if counter =? INT_MAX then Overflow
              else joinCSV_loop fuel' chunkPrefix outputFile w2 isFirstChunk' (counter + 1)
          | OutOfFuel => OutOfFuel
          | Overflow => Overflow
          end
      end
  end.

Definition joinCSV (fuel : nat) (w : world) (chunkPrefix outputFile : string)
    : outcome world :=
  match ofstream_open w outputFile with
  | None => Done (print w Cerr "Error: Unable to open output CSV file!")
  | Some w0 =>
      match joinCSV_loop fuel chunkPrefix outputFile w0 true 1 with
      | Done w' => Done (print w' Cout "CSV file assembly complete!")
      | OutOfFuel => OutOfFuel
      | Overflow => Overflow
      end
  end.

(** ** Building stores *)

Definition text (s : string) : bytes := list_byte_of_string s.

Definition disk (l : list (string * bytes)) : world :=
  {| files := list_to_map l; denied := ∅; console := [] |}.

(** ** Notions used in the statements *)

(** The name of part [n]: [prefix + to_string(n) + ext]. *)
Definition part_name (prefix ext : string) (n : Z) : string :=
  prefix +:+ to_string n +:+ ext.

Definition files_created (n : Z) : string :=
  "Binary chunking complete! " +:+ to_string n +:+ " files created.".

(** The lines successive [getline] calls extract from a text: the pieces
    between newlines, without a final empty piece. *)
Fixpoint lines_of (l : bytes) : list bytes :=
  match l with
  | [] => []
  | b :: l' =>
      if is_LF b then [] :: lines_of l'
      else match lines_of l' with
           | [] => [[b]]
           | ln :: lns => (b :: ln) :: lns
           end
  end.

(** What [out << line << "\n"] for each line in turn leaves in a file. *)
Definition unlines (ls : list bytes) : bytes :=
  concat (map (λ l, l ++ [LF]) ls).

(** Sum of the lengths of some lines. *)
Fixpoint total (ls : list bytes) : Z :=
  match ls with
  | [] => 0
  | l :: ls' => Z.of_nat (length l) + total ls'
  end.

(** The stream can still deliver whatever is left of its file. *)
Definition ready (w : world) (s : ifstream) : Prop :=
  in_fail s = false ∧ (in_eof s = true → in_rest w s = []).

(** A group of data lines respects the threshold when it is a single line
    or its lines together are no longer than the threshold. *)
Definition fits (T : Z) (g : list bytes) : Prop :=
  match g with
  | _ :: _ :: _ => total g ≤ T
  | _ => True
  end.

Definition csv_files_created (n : Z) : string :=
  "CSV chunking complete! " +:+ to_string n +:+ " files created.".

(** The lines [joinCSV] writes for parts given as lists of lines: the first
    line of the first part that has one, and of every part the lines after
    its first. *)
Fixpoint joined (isFirstChunk : bool) (ps : list (list bytes)) : list bytes :=
  match ps with
  | [] => []
  | [] :: ps' => joined isFirstChunk ps'
  | (h :: g) :: ps' => (if isFirstChunk then [h] else []) ++ g ++ joined false ps'
  end.

(** ** Example stores *)

Definition song_disk : world := disk [("a.bin"%string, text "ABCDEFGHIJ")].
Definition even_disk : world := disk [("a.bin"%string, text "ABCDEFGH")].
Definition empty_disk : world := disk [("a.bin"%string, [])].
Definition locked_disk : world :=
  {| files := {[ "a.bin"%string := text "ABCDEFGHIJ" ]};
     denied := {[ "p2.bin"%string ]}; console := [] |}.
Definition gap_disk : world :=
  disk [("p1.bin"%string, text "ABCD"); ("p3.bin"%string, text "IJ")].
Definition table_src : bytes :=
  unlines [text "id,val"; text "1,a"; text "2,b"; text "3,c"].
Definition table_disk : world := disk [("a.csv"%string, table_src)].
Definition wide_src : bytes :=
  unlines [text "id,val"; text "1,a"; text "2,bbbbbbbb"; text "3,c"].
Definition wide_disk : world := disk [("a.csv"%string, wide_src)].
Definition crlf_src : bytes :=
  text "h" ++ [CR; LF] ++ text "a" ++ [CR; LF].
Definition crlf_disk : world := disk [("a.csv"%string, crlf_src)].
Definition blank_src : bytes := unlines [text "h"; []; text "x"].
Definition blank_disk : world := disk [("a.csv"%string, blank_src)].
Definition header_only_disk : world := disk [("a.csv"%string, unlines [text "id,val"])].

(** ** [main] *)

(** [main], from the point where the three values have been read from
    [cin]: they are the arguments ([chunkSizeMB] is an [unsigned long]; what
    [cin >>] makes of text that is not a number is not modelled).  The
    three prompts are written without a line end.  The second component of
    the result is the value [main] returns. *)
Definition main (fuel : nat) (w : world) (filePath chunkPrefix : string)
    (chunkSizeMB : Z) : outcome (world * Z) :=
  let w := print w Cout "Enter the name of the file you want to chunk: " in
  let w := print w Cout "Enter the prefix for the chunk files: " in
  let w := print w Cout "Enter the chunk size in megabytes (e.g., 1 for 1 MB): " in
  let chunkSize := ((chunkSizeMB * 1024) mod ULONG_MOD * 1024) mod ULONG_MOD in
  let extension := extension_of filePath in
  if String.eqb extension ".csv" then
    let w := print w Cout "Chunking the CSV file..." in
    match chunkCSV fuel w filePath chunkPrefix chunkSize with
    | Done w1 =>
        let w2 := print w1 Cout "Joining the CSV file chunks..." in
        let outputFileCSV := "output.csv"%string in
        match joinCSV fuel w2 chunkPrefix outputFileCSV with
        | Done w3 => Done (w3, 0)
        | OutOfFuel => OutOfFuel
        | Overflow => Overflow
        end
    | OutOfFuel => OutOfFuel
    | Overflow => Overflow
    end
  else if String.eqb extension ".mp3" || String.eqb extension ".mp4"
          || String.eqb extension ".bin" then
    let w := print w Cout "Chunking the binary file..." in
    match chunkFile fuel w filePath chunkPrefix chunkSize with
    | Done w1 =>
        let w2 := print w1 Cout "Joining the binary file chunks..." in
        let outputFileBinary := ("output" +:+ extension)%string in
        match joinFile fuel w2 chunkPrefix outputFileBinary extension with
        | Done w3 => Done (w3, 0)
        | OutOfFuel => OutOfFuel
        | Overflow => Overflow
        end
    | OutOfFuel => OutOfFuel
    | Overflow => Overflow
    end
  else Done (print w Cout "Unsupported file type!", 0).

(** ** Further notions used in the statements *)

(** What [main] has printed before it looks at the extension. *)
Definition prompts : list (chan * string) :=
  [(Cout, "Enter the name of the file you want to chunk: "%string);
   (Cout, "Enter the prefix for the chunk files: "%string);
   (Cout, "Enter the chunk size in megabytes (e.g., 1 for 1 MB): "%string)].

(** The extensions [main] sends to the binary pipeline. *)
Definition binary_extension (e : string) : Prop :=
  e = ".mp3"%string ∨ e = ".mp4"%string ∨ e = ".bin"%string.

(** The character occurs in the string. *)
Fixpoint occurs (c : ascii) (s : string) : bool :=
  match s with
  | EmptyString => false
  | String a s' => Ascii.eqb a c || occurs c s'
  end.

(** The grouping [chunkCSV] makes of the lines it reads, as a function of
    the threshold and of the accumulated size [cs] of the part that is
    open: the lines that still go to the open part, then the groups of the
    new parts. *)
Fixpoint csv_split (T cs : Z) (ls : list bytes) : list bytes * list (list bytes) :=
  match ls with
  | [] => ([], [])
  | l :: ls' =>
      let size := Z.of_nat (length l) in
      if (cs =? 0) || (T <? (cs + size) mod ULONG_MOD) then
        let '(g0, gs) := csv_split T ((0 + size) mod ULONG_MOD) ls' in
        ([], (l :: g0) :: gs)
      else
        let '(g0, gs) := csv_split T ((cs + size) mod ULONG_MOD) ls' in
        (l :: g0, gs)
  end.

(** The groups of data lines of the parts of a table. *)
Definition csv_groups (T : Z) (data : list bytes) : list (list bytes) :=
  (csv_split T 0 data).2.

(** A decimal digit. *)
Definition is_digit (a : ascii) : bool :=
  (48 <=? nat_of_ascii a)%nat && (nat_of_ascii a <=? 57)%nat.


(** ** More example stores *)

Definition stale_disk : world :=
  disk [("a.bin"%string, text "ABCDEFGHIJ"); ("p4.bin"%string, text "old")].
Definition alias_disk : world := disk [("p1.bin"%string, text "ABCDEFGHIJ")].
Definition csv_second_locked_disk : world :=
  {| files := {[ "a.csv"%string := table_src ]};
     denied := {[ "p2.csv"%string ]}; console := [] |}.
Definition notes_disk : world := disk [("notes.txt"%string, text "hello")].

(** ** Numbered names are distinct *)

Lemma to_int_not_nil (z : Z) :
  Z.to_int z ≠ Decimal.Pos Decimal.Nil ∧ Z.to_int z ≠ Decimal.Neg Decimal.Nil.
Proof.
  destruct z as [|p|p]; cbn; split; try discriminate.
  - intros H. injection H as H.
    assert (Hp : Pos.of_uint (Pos.to_uint p) = N.pos p)
      by apply DecimalPos.Unsigned.of_to.
    rewrite H in Hp. discriminate Hp.
  - intros H. injection H as H.
    assert (Hp : Pos.of_uint (Pos.to_uint p) = N.pos p)
      by apply DecimalPos.Unsigned.of_to.
    rewrite H in Hp. discriminate Hp.
Qed.

Lemma to_string_inj (a b : Z) : to_string a = to_string b → a = b.
Proof.
  unfold to_string. intros H.
  destruct (to_int_not_nil a) as [Ha1 Ha2], (to_int_not_nil b) as [Hb1 Hb2].
  assert (E : Some (Z.to_int a) = Some (Z.to_int b)).
  { rewrite <- (NilZero.isi _ Ha1 Ha2), <- (NilZero.isi _ Hb1 Hb2). by rewrite H. }
  injection E as E.
  rewrite <- (DecimalZ.of_to a), <- (DecimalZ.of_to b). by rewrite E.
Qed.

Lemma append_length (s1 s2 : string) :
  String.length (s1 +:+ s2) = (String.length s1 + String.length s2)%nat.
Proof. induction s1 as [|a s1 IH]; simpl; [done | by rewrite IH]. Qed.

Lemma append_inj_r (e s1 s2 : string) : s1 +:+ e = s2 +:+ e → s1 = s2.
Proof.
  revert s2. induction s1 as [|a s1 IH]; intros [|b s2] H; simpl in H.
  - done.
  - apply (f_equal String.length) in H. rewrite !append_length in H. simpl in H. lia.
  - apply (f_equal String.length) in H. rewrite !append_length in H. simpl in H. lia.
  - injection H as -> H. f_equal. by apply IH.
Qed.

(** Different numbers give different names. *)
Lemma part_name_inj (prefix ext : string) (a b : Z) :
  part_name prefix ext a = part_name prefix ext b → a = b.
Proof.
  unfold part_name. intros H.
  apply String.app_inj in H. apply append_inj_r in H. by apply to_string_inj.
Qed.

(** ** The store after opening and writing *)

Lemma ofstream_open_allowed (w : world) (name : string) :
  name ∉ denied w →
  ofstream_open w name =
    Some {| files := <[name := []]> (files w); denied := denied w; console := console w |}.
Proof. intros H. unfold ofstream_open. by case_decide. Qed.

Lemma ofstream_open_denied (w : world) (name : string) :
  name ∈ denied w → ofstream_open w name = None.
Proof. intros H. unfold ofstream_open. by case_decide. Qed.

Lemma content_Some (w : world) (name : string) (b : bytes) :
  files w !! name = Some b → content w name = b.
Proof. unfold content. by intros ->. Qed.

Lemma in_rest_eq (w w' : world) (s : ifstream) :
  files w' !! in_path s = files w !! in_path s → in_rest w' s = in_rest w s.
Proof. unfold in_rest, content. by intros ->. Qed.

Lemma div_step (a T : Z) : 1 ≤ T → T ≤ a → (a - T) / T = a / T - 1.
Proof.
  intros HT Ha. replace a with ((a - T) + 1 * T) at 2 by lia.
  rewrite Z.div_add by lia. lia.
Qed.

(** ** The binary chunker *)

Section chunkFile_spec.
Variables (prefix ext : string) (T : Z).
Hypothesis T_pos : 1 ≤ T.

Local Abbreviation name := (part_name prefix ext).

(** One iteration that opens its part: the part receives the bytes read,
    and the loop goes on with the next number. *)
Lemma chunkFile_loop_step (fuel : nat) (w : world) (s : ifstream) (c : Z) :
  in_eof s = false → in_fail s = false →
  in_path s ≠ name c → name c ∉ denied w → c ≠ INT_MAX →
  let data := take (Z.to_nat T) (in_rest w s) in
  let short := Z.of_nat (length data) <? T in
  chunkFile_loop (S fuel) prefix ext T w s c =
  chunkFile_loop fuel prefix ext T
    {| files := <[name c := data]> (files w); denied := denied w; console := console w |}
    {| in_path := in_path s; in_pos := (in_pos s + length data)%nat;
       in_eof := short; in_fail := short |}
    (c + 1).
Proof.
  intros Heof Hfail Hpath Hok Hc data short.
  cbn [chunkFile_loop]. rewrite Heof.
  change (prefix +:+ to_string c +:+ ext) with (name c).
  rewrite (ofstream_open_allowed w (name c) Hok).
  unfold ifstream_read. rewrite Heof, Hfail. cbn [orb].
  rewrite (in_rest_eq w) by (cbn; by apply lookup_insert_ne).
  fold data. fold short.
  apply Z.eqb_neq in Hc.
  assert (E : ∀ d, ofstream_write
            {| files := <[name c := []]> (files w); denied := denied w; console := console w |}
            (name c) d =
            {| files := <[name c := d]> (files w); denied := denied w; console := console w |}).
  { intros d. unfold ofstream_write, content. cbn.
    by rewrite lookup_insert_eq, insert_insert_eq. }
  destruct short; rewrite E, Hc; reflexivity.
Qed.

(** The loop from any point of the source: it ends, the parts written are
    the successive slices of [T] bytes of what was left to read, followed
    by the remainder (empty when [T] divides the length), and no other
    file changes. *)
Lemma chunkFile_loop_spec (n : nat) :
  ∀ (w : world) (s : ifstream) (c : Z) (fuel : nat),
    (length (in_rest w s) ≤ n)%nat →
    is_Some (files w !! in_path s) →
    in_eof s = false → in_fail s = false →
    (∀ i, c ≤ i ≤ c + Z.of_nat (length (in_rest w s)) / T → in_path s ≠ name i) →
    (∀ i, c ≤ i ≤ c + Z.of_nat (length (in_rest w s)) / T → name i ∉ denied w) →
    c + Z.of_nat (length (in_rest w s)) / T < INT_MAX →
    Z.of_nat (length (in_rest w s)) / T + 1 < Z.of_nat fuel →
    ∃ (ps : list bytes) (w' : world),
      chunkFile_loop fuel prefix ext T w s c = Done (w', c + Z.of_nat (length ps)) ∧
      concat ps = in_rest w s ∧
      Z.of_nat (length ps) = Z.of_nat (length (in_rest w s)) / T + 1 ∧
      (∀ (i : nat) p, ps !! i = Some p →
         p = take (Z.to_nat T) (drop (i * Z.to_nat T) (in_rest w s))) ∧
      (∀ (i : nat) p, ps !! i = Some p → files w' !! name (c + Z.of_nat i) = Some p) ∧
      (∀ f, (∀ i, c ≤ i < c + Z.of_nat (length ps) → f ≠ name i) →
            files w' !! f = files w !! f) ∧
      denied w' = denied w ∧ console w' = console w.
Proof.
  induction n as [|n IH]; intros w s c fuel Hlen Hsrc Heof Hfail Hne Hok Hmax Hfuel.
  all: pose proof (Z.div_pos (Z.of_nat (length (in_rest w s))) T ltac:(lia) ltac:(lia)) as Hdiv.
  all: destruct fuel as [|fuel]; [lia |].
  all: rewrite chunkFile_loop_step by (try done; try (apply Hne; lia); try (apply Hok; lia); lia).
  all: set (rest := in_rest w s) in *; set (data := take (Z.to_nat T) rest).
  all: set (w2 := {| files := <[name c := data]> (files w); denied := denied w;
                     console := console w |}).
  all: assert (Hw2 : ∀ f, files w2 !! f = if decide (name c = f) then Some data else files w !! f)
         by (intros f; cbn; apply lookup_insert).
  all: destruct (Z.ltb_spec (Z.of_nat (length data)) T) as [Hshort|Hfull].
  1,3: (* the remainder: this part is the last one *)
    destruct fuel as [|fuel]; [lia |]; cbn [chunkFile_loop in_eof];
    assert (Hall : data = rest)
      by (unfold data in *; apply take_ge; rewrite length_take in Hshort; lia);
    exists [data], w2; rewrite Hall in *; cbn [length concat];
    rewrite app_nil_r, Z.div_small by lia;
    (repeat split; try done);
    [ intros [|i] p Hp; [|done]; injection Hp as <-; cbn [Nat.mul drop];
      symmetry; apply take_ge; lia
    | intros [|i] p Hp; [|done]; injection Hp as <-; rewrite Z.add_0_r, Hw2; by case_decide
    | intros f Hf; rewrite Hw2; case_decide as E; [|done];
      exfalso; apply (Hf c); [cbn; lia | done] ].
  - (* nothing is left, so the read cannot be full *)
    exfalso. unfold data in Hfull. rewrite length_take in Hfull. lia.
  - (* a full part, and the loop goes on *)
    assert (HlenD : Z.of_nat (length data) = T)
      by (unfold data in *; rewrite length_take in *; lia).
    assert (HTle : T ≤ Z.of_nat (length rest))
      by (unfold data in HlenD; rewrite length_take in HlenD; lia).
    set (s' := {| in_path := in_path s; in_pos := (in_pos s + length data)%nat;
                  in_eof := false; in_fail := false |}).
    assert (Hpath : name c ≠ in_path s) by (intros E; by apply (Hne c); [lia |]).
    assert (Hrest' : in_rest w2 s' = drop (Z.to_nat T) rest).
    { unfold in_rest at 1. cbn [in_path in_pos s']. unfold content. rewrite Hw2.
      case_decide; [done |].
      unfold rest, in_rest, content. rewrite drop_drop. f_equal. lia. }
    assert (HlenR : Z.of_nat (length (in_rest w2 s')) = Z.of_nat (length rest) - T)
      by (rewrite Hrest', length_drop; lia).
    destruct (IH w2 s' (c + 1) fuel)
      as (ps & w' & Hrun & Hcat & Hnum & Hsz & Hparts & Hother & Hden & Hcon).
    { lia. }
    { cbn. rewrite Hw2. by case_decide. }
    { done. } { done. }
    { intros i Hi. rewrite HlenR, div_step in Hi by lia. cbn. apply Hne. lia. }
    { intros i Hi. rewrite HlenR, div_step in Hi by lia. cbn. apply Hok. lia. }
    { rewrite HlenR, div_step by lia. lia. }
    { rewrite HlenR, div_step by lia. lia. }
    rewrite HlenR, div_step in Hnum by lia.
    exists (data :: ps), w'. repeat split.
    + fold s'. rewrite Hrun. do 2 f_equal. cbn [length]. lia.
    + cbn [concat]. rewrite Hcat, Hrest'. apply take_drop.
    + cbn [length]. lia.
    + intros [|i] p Hp; [by injection Hp as <- |].
      by rewrite (Hsz i p Hp), Hrest', drop_drop.
    + intros [|i] p Hp.
      * injection Hp as <-. rewrite Z.add_0_r, Hother.
        -- rewrite Hw2. by case_decide.
        -- intros i Hi E. apply part_name_inj in E. lia.
      * replace (c + Z.of_nat (S i)) with (c + 1 + Z.of_nat i) by lia. by apply Hparts.
    + intros f Hf. rewrite Hother.
      * rewrite Hw2. case_decide as E; [|done].
        exfalso. apply (Hf c); [cbn [length]; lia | done].
      * intros i Hi. apply Hf. cbn [length]. lia.
    + done.
    + done.
Qed.
End chunkFile_spec.

(** ** The binary joiner *)

Section joinFile_spec.
Variables (prefix out ext : string).

Local Abbreviation name := (part_name prefix ext).

(** One iteration that finds its part: the whole part is appended to the
    output. *)
Lemma joinFile_loop_step (fuel : nat) (w : world) (c : Z) (p : bytes) :
  files w !! name c = Some p →
  joinFile_loop (S fuel) prefix out ext w c =
  joinFile_loop fuel prefix out ext (ofstream_write w out p) ((c + 1) mod UINT_MOD).
Proof.
  intros Hp. cbn [joinFile_loop].
  change (prefix +:+ to_string c +:+ ext) with (name c).
  unfold ifstream_open. rewrite Hp, (content_Some _ _ _ Hp).
  unfold ifstream_read, in_rest. cbn [in_eof in_fail in_pos in_path orb].
  rewrite (content_Some _ _ _ Hp), drop_0, Nat2Z.id, firstn_all, Z.ltb_irrefl.
  by rewrite firstn_all.
Qed.

(** The first name that is absent ends the loop. *)
Lemma joinFile_loop_stop (fuel : nat) (w : world) (c : Z) :
  files w !! name c = None →
  joinFile_loop (S fuel) prefix out ext w c = Done w.
Proof.
  intros Hp. cbn [joinFile_loop].
  change (prefix +:+ to_string c +:+ ext) with (name c).
  unfold ifstream_open. by rewrite Hp.
Qed.

(** The loop over parts [c, c+1, ...] holding [ps], with the next name
    absent: the parts are appended to the output in order. *)
Lemma joinFile_loop_spec (ps : list bytes) :
  ∀ (w : world) (c : Z) (fuel : nat),
    (∀ (i : nat) p, ps !! i = Some p → files w !! name (c + Z.of_nat i) = Some p) →
    files w !! name (c + Z.of_nat (length ps)) = None →
    (∀ i, c ≤ i ≤ c + Z.of_nat (length ps) → out ≠ name i) →
    0 ≤ c → c + Z.of_nat (length ps) < UINT_MOD →
    (length ps < fuel)%nat →
    ∃ w', joinFile_loop fuel prefix out ext w c = Done w' ∧
          files w' = (if ps is [] then files w
                      else <[out := content w out ++ concat ps]> (files w)) ∧
          denied w' = denied w ∧ console w' = console w.
Proof.
  induction ps as [|p ps IH]; intros w c fuel Hparts Hgap Hout Hc Hmax Hfuel.
  all: destruct fuel as [|fuel]; [cbn in Hfuel; lia |].
  - cbn in Hgap. rewrite Z.add_0_r in Hgap.
    rewrite joinFile_loop_stop by done. by exists w.
  - assert (Hp : files w !! name c = Some p).
    { specialize (Hparts 0%nat p eq_refl). by rewrite Z.add_0_r in Hparts. }
    rewrite (joinFile_loop_step _ _ _ _ Hp).
    cbn [length] in *. rewrite Z.mod_small by (unfold UINT_MOD in *; lia).
    set (w1 := ofstream_write w out p).
    assert (Hw1 : ∀ i, c ≤ i ≤ c + Z.of_nat (S (length ps)) →
                       files w1 !! name i = files w !! name i).
    { intros i Hi. cbn. apply lookup_insert_ne. by apply Hout. }
    assert (Hcont : content w1 out = content w out ++ p).
    { unfold content at 1. cbn. by rewrite lookup_insert_eq. }
    destruct (IH w1 (c + 1) fuel) as (w' & Hrun & Hfiles & Hden & Hcon).
    { intros i q Hq. pose proof (lookup_lt_Some _ _ _ Hq). rewrite Hw1 by lia.
      replace (c + 1 + Z.of_nat i) with (c + Z.of_nat (S i)) by lia. by apply Hparts. }
    { rewrite Hw1 by lia. rewrite <- Hgap. do 2 f_equal. lia. }
    { intros i Hi. apply Hout. lia. }
    { lia. } { lia. } { lia. }
    exists w'. split; [done |]. split; [|done].
    rewrite Hfiles, Hcont. cbn [concat].
    destruct ps as [|q ps]; cbn [files w1 ofstream_write].
    + by rewrite app_nil_r.
    + by rewrite insert_insert_eq, <- app_assoc.
Qed.

(** [joinFile] on parts [1 .. length ps] holding [ps]. *)
Lemma joinFile_spec (ps : list bytes) (w : world) (fuel : nat) :
  (∀ (i : nat) p, ps !! i = Some p → files w !! name (1 + Z.of_nat i) = Some p) →
  files w !! name (1 + Z.of_nat (length ps)) = None →
  out ∉ denied w →
  (∀ i, 1 ≤ i ≤ 1 + Z.of_nat (length ps) → out ≠ name i) →
  1 + Z.of_nat (length ps) < UINT_MOD →
  (length ps < fuel)%nat →
  ∃ w', joinFile fuel w prefix out ext = Done w' ∧
        files w' = <[out := concat ps]> (files w) ∧
        denied w' = denied w ∧
        console w' = console w ++ [(Cout, "Binary file assembly complete!"%string)].
Proof.
  intros Hparts Hgap Hok Hout Hmax Hfuel.
  unfold joinFile. rewrite ofstream_open_allowed by done.
  set (w0 := {| files := <[out := []]> (files w); denied := denied w; console := console w |}).
  assert (Hw0 : ∀ i, 1 ≤ i ≤ 1 + Z.of_nat (length ps) →
                     files w0 !! name i = files w !! name i).
  { intros i Hi. cbn. apply lookup_insert_ne. by apply Hout. }
  destruct (joinFile_loop_spec ps w0 1 fuel) as (w' & Hrun & Hfiles & Hden & Hcon).
  { intros i p Hp. pose proof (lookup_lt_Some _ _ _ Hp). rewrite Hw0 by lia. by apply Hparts. }
  { by rewrite Hw0 by lia. }
  { done. } { lia. } { done. } { done. }
  rewrite Hrun. eexists. split; [done |]. cbn. rewrite Hden, Hcon. repeat split.
  rewrite Hfiles. unfold content. cbn. rewrite lookup_insert_eq. cbn.
  destruct ps; [done |]. by rewrite insert_insert_eq.
Qed.
End joinFile_spec.

(** ** Running the binary pipeline *)

Section binary_pipeline.
Variables (prefix : string) (T : Z).
Hypothesis T_pos : 1 ≤ T.

(** [chunkFile] on a source that can be read: the parts are the slices of
    the source, [N] of them are reported. *)
Lemma chunkFile_spec (w : world) (path : string) (src : bytes) (fuel : nat) :
  let ext := extension_of path in
  let N := Z.of_nat (length src) / T + 1 in
  files w !! path = Some src →
  (∀ i, 1 ≤ i ≤ N → path ≠ part_name prefix ext i) →
  (∀ i, 1 ≤ i ≤ N → part_name prefix ext i ∉ denied w) →
  N < INT_MAX →
  N < Z.of_nat fuel →
  ∃ (ps : list bytes) (w' : world),
    chunkFile fuel w path prefix T = Done w' ∧
    concat ps = src ∧
    Z.of_nat (length ps) = N ∧
    (∀ (i : nat) p, ps !! i = Some p →
       p = take (Z.to_nat T) (drop (i * Z.to_nat T) src)) ∧
    (∀ (i : nat) p, ps !! i = Some p →
       files w' !! part_name prefix ext (1 + Z.of_nat i) = Some p) ∧
    (∀ f, (∀ i, 1 ≤ i ≤ N → f ≠ part_name prefix ext i) → files w' !! f = files w !! f) ∧
    denied w' = denied w ∧
    console w' = console w ++ [(Cout, files_created N)].
Proof.
  intros ext N Hsrc Hne Hok Hmax Hfuel. unfold chunkFile, ifstream_open. rewrite Hsrc.
  set (s := {| in_path := path; in_pos := 0; in_eof := false; in_fail := false |}).
  assert (Hrest : in_rest w s = src).
  { unfold in_rest. cbn. by rewrite (content_Some _ _ _ Hsrc). }
  destruct (chunkFile_loop_spec prefix ext T T_pos (length src) w s 1 fuel)
    as (ps & w' & Hrun & Hcat & Hnum & Hsz & Hparts & Hother & Hden & Hcon).
  { by rewrite Hrest. }
  { cbn. by rewrite Hsrc. }
  { done. } { done. }
  { rewrite Hrest. intros i Hi. apply Hne. subst N. lia. }
  { rewrite Hrest. intros i Hi. apply Hok. subst N. lia. }
  { rewrite Hrest. subst N. lia. }
  { rewrite Hrest. subst N. lia. }
  fold ext. rewrite Hrun. rewrite Hrest in *.
  exists ps, (print w' Cout (files_created N)). repeat split; try done.
  - replace (1 + Z.of_nat (length ps) - 1) with N by (subst N; lia). done.
  - intros f Hf. apply Hother. intros i Hi. apply Hf. subst N. lia.
  - cbn. by rewrite Hcon.
Qed.
End binary_pipeline.

(** ** A part that cannot be opened *)

Section chunkFile_denied.
Variables (prefix ext : string) (T : Z).
Hypothesis T_pos : 1 ≤ T.

Local Abbreviation name := (part_name prefix ext).

(** The iteration whose part cannot be opened changes nothing: not the
    stream, not the counter, not the store. *)
Lemma chunkFile_loop_retry (fuel : nat) (w : world) (s : ifstream) (c : Z) :
  in_eof s = false → name c ∈ denied w →
  chunkFile_loop (S fuel) prefix ext T w s c = chunkFile_loop fuel prefix ext T w s c.
Proof.
  intros Heof Hden. cbn [chunkFile_loop]. rewrite Heof.
  change (prefix +:+ to_string c +:+ ext) with (name c).
  by rewrite ofstream_open_denied.
Qed.

(** With part [k] denied and the parts before it fine, the loop reaches
    [k] and stays there, however many iterations it is given. *)
Lemma chunkFile_loop_denied (fuel : nat) :
  ∀ (w : world) (s : ifstream) (c k : Z),
    in_eof s = false → in_fail s = false →
    c ≤ k ≤ c + Z.of_nat (length (in_rest w s)) / T →
    k ≤ INT_MAX →
    name k ∈ denied w →
    (∀ i, c ≤ i < k → name i ∉ denied w) →
    (∀ i, c ≤ i < k → in_path s ≠ name i) →
    chunkFile_loop fuel prefix ext T w s c = OutOfFuel.
Proof.
  induction fuel as [|fuel IH]; intros w s c k Heof Hfail Hk Hmax Hden Hok Hne; [done |].
  destruct (decide (c = k)) as [->|Hck].
  - rewrite chunkFile_loop_retry by done. by apply (IH w s k k).
  - rewrite chunkFile_loop_step by (try done; try (apply Hne; lia); try (apply Hok; lia); lia).
    set (rest := in_rest w s) in *. set (data := take (Z.to_nat T) rest).
    assert (HTle : T ≤ Z.of_nat (length rest)).
    { destruct (Z.lt_ge_cases (Z.of_nat (length rest)) T) as [Hlt|]; [|done].
      rewrite Z.div_small in Hk by lia. lia. }
    assert (HlenD : Z.of_nat (length data) = T)
      by (unfold data; rewrite length_take; lia).
    replace (Z.of_nat (length data) <? T) with false by (symmetry; apply Z.ltb_ge; lia).
    apply (IH _ _ (c + 1) k); try done; cbn [denied in_path].
    + unfold in_rest, content. cbn [in_path in_pos files].
      rewrite lookup_insert_ne by (intros E; symmetry in E; revert E; apply Hne; lia).
      fold (content w (in_path s)).
      replace (drop (in_pos s + length data) (content w (in_path s)))
        with (drop (Z.to_nat T) rest)
        by (unfold rest, in_rest; rewrite drop_drop; f_equal; lia).
      rewrite length_drop.
      replace (Z.of_nat (length rest - Z.to_nat T)) with (Z.of_nat (length rest) - T) by lia.
      rewrite div_step by lia. lia.
    + intros i Hi. apply Hok. lia.
    + intros i Hi. apply Hne. lia.
Qed.
End chunkFile_denied.

(** ** Lines *)

Lemma is_LF_true (b : byte) : is_LF b = true ↔ b = LF.
Proof.
  unfold is_LF. split.
  - apply Byte.byte_dec_bl.
  - apply Byte.byte_dec_lb.
Qed.

Lemma until_LF_length (l : bytes) : (length (until_LF l) ≤ length l)%nat.
Proof. induction l as [|b l IH]; cbn; [done |]. destruct (is_LF b); cbn; lia. Qed.

Lemma until_LF_no_LF (l : bytes) : LF ∉ until_LF l.
Proof.
  induction l as [|b l IH]; cbn; [apply not_elem_of_nil |].
  destruct (is_LF b) eqn:E; [apply not_elem_of_nil |].
  apply not_elem_of_cons. split; [|done].
  intros Hb. symmetry in Hb. apply is_LF_true in Hb. congruence.
Qed.

Lemma lines_of_nil_inv (l : bytes) : lines_of l = [] → l = [].
Proof.
  destruct l as [|b l]; [done |]. cbn.
  destruct (is_LF b); [done |]. by destruct (lines_of l).
Qed.

Lemma lines_of_unfold (l : bytes) :
  l ≠ [] →
  lines_of l = until_LF l :: lines_of (drop (S (length (until_LF l))) l).
Proof.
  induction l as [|b l IH]; [done |]. intros _. cbn [lines_of until_LF].
  destruct (is_LF b); [done |]. cbn [length drop].
  destruct l as [|b' l]; [done |]. by rewrite IH.
Qed.

Lemma lines_of_no_LF (l : bytes) : Forall (λ ln, LF ∉ ln) (lines_of l).
Proof.
  remember (length l) as n eqn:Hn. revert l Hn.
  induction (lt_wf n) as [n _ IH]. intros l ->.
  destruct (decide (l = [])) as [->|Hl]; [constructor |].
  rewrite lines_of_unfold by done. constructor; [apply until_LF_no_LF |].
  eapply IH; [|done]. rewrite length_drop. destruct l; [done |]. cbn. lia.
Qed.

Lemma lines_of_line (ln rest : bytes) :
  LF ∉ ln → lines_of (ln ++ LF :: rest) = ln :: lines_of rest.
Proof.
  induction ln as [|b ln IH]; intros Hno; cbn.
  - done.
  - apply not_elem_of_cons in Hno as [Hb Hln].
    destruct (is_LF b) eqn:E; [apply is_LF_true in E; congruence |].
    by rewrite IH.
Qed.

(** Reading back what was written line by line. *)
Lemma lines_of_unlines (ls : list bytes) :
  Forall (λ ln, LF ∉ ln) ls → lines_of (unlines ls) = ls.
Proof.
  induction 1 as [|ln ls Hln _ IH]; [done |].
  unfold unlines in *. cbn [map concat]. rewrite <- app_assoc. cbn [app].
  by rewrite lines_of_line, IH.
Qed.

Lemma unlines_app (l1 l2 : list bytes) : unlines (l1 ++ l2) = unlines l1 ++ unlines l2.
Proof. unfold unlines. by rewrite map_app, concat_app. Qed.

Lemma total_app (l1 l2 : list bytes) : total (l1 ++ l2) = total l1 + total l2.
Proof. induction l1 as [|l l1 IH]; cbn [total app]; [done |]. rewrite IH. lia. Qed.

Lemma total_nonneg (ls : list bytes) : 0 ≤ total ls.
Proof. induction ls as [|l ls IH]; cbn [total]; lia. Qed.

(** ** [getline] against [lines_of] *)

Lemma getline_None (w : world) (s : ifstream) :
  ready w s → lines_of (in_rest w s) = [] → (getline w s).1 = None.
Proof.
  intros [Hfail Heof] Hls. apply lines_of_nil_inv in Hls.
  unfold getline. rewrite Hfail, Hls. by destruct (in_eof s).
Qed.

(** On a stream that is [ready], [getline] delivers the lines of
    [lines_of] one by one and fails when they are used up. *)
Lemma getline_Some (w : world) (s : ifstream) (l : bytes) (ls : list bytes) :
  ready w s → lines_of (in_rest w s) = l :: ls →
  ∃ s', getline w s = (Some l, s') ∧ in_path s' = in_path s ∧
        ready w s' ∧ lines_of (in_rest w s') = ls.
Proof.
  intros [Hfail Heof] Hls.
  assert (Hne : in_rest w s ≠ []) by (intros E; by rewrite E in Hls).
  rewrite lines_of_unfold in Hls by done. injection Hls as Hl Hls.
  assert (E : in_eof s = false) by (destruct (in_eof s); [by specialize (Heof eq_refl) | done]).
  unfold getline. rewrite Hfail, E. cbn [orb].
  destruct (in_rest w s) as [|b r] eqn:Hrest; [done |].
  rewrite Hl. pose proof (until_LF_length (b :: r)) as Hle. rewrite Hl in Hle.
  assert (Hdrop : ∀ k, drop (in_pos s + k) (content w (in_path s)) = drop k (b :: r)).
  { intros k. rewrite <- Hrest. unfold in_rest. by rewrite drop_drop. }
  destruct (Nat.ltb_spec (length l) (length (b :: r))) as [Hlt|Hge]; eexists; split; try done.
  - split; [done |]. split; [done |]. unfold in_rest. cbn [in_pos in_path].
    rewrite <- Nat.add_assoc, Hdrop, <- Hls, Hl. do 2 f_equal. lia.
  - split; [done |]. unfold ready, in_rest. cbn [in_pos in_path in_fail in_eof].
    rewrite Hdrop, <- Hls, Hl. rewrite !drop_ge by lia. done.
Qed.

(** ** The line-oriented chunker *)

Lemma groups_length {A : Type} (gs : list (list A)) :
  Forall (λ g, g ≠ []) gs → (length gs ≤ length (concat gs))%nat.
Proof.
  induction 1 as [|g gs Hg _ IH]; cbn; [done |].
  rewrite length_app. destruct g; [done |]. cbn. lia.
Qed.

Section chunkCSV_spec.
Variables (prefix : string) (T : Z) (header : bytes).

Local Abbreviation name := (part_name prefix ".csv").
Local Abbreviation loop := (fun fuel => chunkCSV_loop fuel prefix T header).
Local Abbreviation new_part := (fun cs size => (cs =? 0) || (T <? (cs + size) mod ULONG_MOD)).

Lemma chunkCSV_loop_end (fuel : nat) (w : world) (s : ifstream)
    (out : option string) (cs c : Z) :
  (getline w s).1 = None →
  loop (S fuel) w s out cs c = Done (w, LinesDone c).
Proof. intros H. cbn [chunkCSV_loop]. destruct (getline w s) as [[l|] s']; done. Qed.

(** A line that starts a part: the part is created with the header and
    the line, and the accumulated size restarts at the line's length. *)
Lemma chunkCSV_loop_new (fuel : nat) (w : world) (s s' : ifstream)
    (out : option string) (cs c : Z) (line : bytes) :
  getline w s = (Some line, s') →
  new_part cs (Z.of_nat (length line)) = true →
  name c ∉ denied w → c ≠ INT_MAX →
  loop (S fuel) w s out cs c =
  loop fuel
    {| files := <[name c := unlines [header; line]]> (files w);
       denied := denied w; console := console w |}
    s' (Some (name c)) (Z.of_nat (length line) mod ULONG_MOD) (c + 1).
Proof.
  intros Hget Hnew Hok Hc. cbn [chunkCSV_loop]. rewrite Hget, Hnew.
  change (prefix +:+ to_string c +:+ ".csv") with (name c).
  rewrite ofstream_open_allowed by done.
  apply Z.eqb_neq in Hc. rewrite Hc. f_equal.
  unfold ofstream_write, content, unlines. cbn.
  rewrite !lookup_insert_eq, !insert_insert_eq. cbn. by rewrite app_nil_r.
Qed.

(** Any other line is appended to the part that is open. *)
Lemma chunkCSV_loop_append (fuel : nat) (w : world) (s s' : ifstream)
    (out : option string) (cs c : Z) (line : bytes) :
  getline w s = (Some line, s') →
  new_part cs (Z.of_nat (length line)) = false →
  loop (S fuel) w s out cs c =
  loop fuel (output_line w out line) s' out
    ((cs + Z.of_nat (length line)) mod ULONG_MOD) c.
Proof. intros Hget Hnew. cbn [chunkCSV_loop]. by rewrite Hget, Hnew. Qed.

Lemma ready_eq (w w' : world) (s : ifstream) :
  files w' !! in_path s = files w !! in_path s → ready w s → ready w' s.
Proof. intros E. unfold ready. by rewrite (in_rest_eq _ _ _ E). Qed.

(** The line loop from any point: [ls] are the lines still to read, [out]
    the part that is open and [cs] its accumulated size.  The loop ends;
    the first lines [g0] go to the open part, the others form the groups
    [gs], one new part each, every part starting with the header. *)
Lemma chunkCSV_loop_spec (ls : list bytes) :
  ∀ (w : world) (s : ifstream) (out : option string) (cs c : Z) (fuel : nat),
    lines_of (in_rest w s) = ls →
    ready w s →
    (∀ i, c ≤ i < c + Z.of_nat (length ls) → in_path s ≠ name i) →
    (∀ i, c ≤ i < c + Z.of_nat (length ls) → name i ∉ denied w) →
    (∀ o, out = Some o →
       is_Some (files w !! o) ∧ in_path s ≠ o ∧
       ∀ i, c ≤ i < c + Z.of_nat (length ls) → o ≠ name i) →
    (out = None → cs = 0) →
    0 ≤ cs →
    c + Z.of_nat (length ls) ≤ INT_MAX →
    (length ls < fuel)%nat →
    ∃ (g0 : list bytes) (gs : list (list bytes)) (w' : world),
      loop fuel w s out cs c = Done (w', LinesDone (c + Z.of_nat (length gs))) ∧
      ls = g0 ++ concat gs ∧
      Forall (λ g, g ≠ []) gs ∧
      (cs = 0 → g0 = []) ∧
      (∀ o, out = Some o → files w' !! o = Some (content w o ++ unlines g0)) ∧
      (∀ (i : nat) g, gs !! i = Some g →
         files w' !! name (c + Z.of_nat i) = Some (unlines (header :: g))) ∧
      (∀ f, out ≠ Some f → (∀ i, c ≤ i < c + Z.of_nat (length gs) → f ≠ name i) →
            files w' !! f = files w !! f) ∧
      denied w' = denied w ∧ console w' = console w ∧
      (cs + total ls < ULONG_MOD →
         (g0 ≠ [] → cs + total g0 ≤ T) ∧ Forall (fits T) gs).
Proof.
  induction ls as [|l ls IH];
    intros w s out cs c fuel Hls Hready Hne Hok Hout Hcs0 Hcs Hmax Hfuel.
  all: destruct fuel as [|fuel]; [cbn in Hfuel; lia |].
  - rewrite chunkCSV_loop_end by by apply getline_None.
    exists [], [], w. cbn [length]. rewrite Z.add_0_r, app_nil_r.
    repeat split; try done.
    intros o Ho. destruct (Hout o Ho) as [[b Hb] _].
    by rewrite (content_Some _ _ _ Hb), app_nil_r.
  - destruct (getline_Some w s l ls Hready Hls) as (s' & Hget & Hpath & Hready' & Hls').
    cbn [length] in *.
    destruct (new_part cs (Z.of_nat (length l))) eqn:Hnew.
    + (* the line starts part [c] *)
      rewrite (chunkCSV_loop_new _ _ _ _ _ _ _ _ Hget Hnew)
        by (try (apply Hok; lia); lia).
      set (w3 := {| files := <[name c := unlines [header; l]]> (files w);
                    denied := denied w; console := console w |}).
      assert (Hw3 : ∀ f, f ≠ name c → files w3 !! f = files w !! f).
      { intros f Hf. cbn. by apply lookup_insert_ne. }
      assert (Hsrc : files w3 !! in_path s' = files w !! in_path s').
      { apply Hw3. rewrite Hpath. apply Hne. lia. }
      destruct (IH w3 s' (Some (name c)) (Z.of_nat (length l) mod ULONG_MOD) (c + 1) fuel)
        as (g0 & gs & w' & Hrun & Hcat & Hnonempty & _ & Hopen & Hparts & Hother
            & Hden & Hcon & Hsize).
      { by rewrite (in_rest_eq _ _ _ Hsrc). }
      { by apply (ready_eq w). }
      { intros i Hi. rewrite Hpath. apply Hne. lia. }
      { intros i Hi. apply Hok. lia. }
      { intros o [= <-]. split; [cbn; rewrite lookup_insert_eq; eauto |].
        split; [rewrite Hpath; apply Hne; lia |].
        intros i Hi E. apply part_name_inj in E. lia. }
      { done. }
      { apply Z.mod_pos_bound. done. }
      { lia. } { lia. }
      assert (Hlen : (length gs ≤ length ls)%nat).
      { rewrite Hcat, length_app. pose proof (groups_length gs Hnonempty). lia. }
      exists [], ((l :: g0) :: gs), w'. cbn [length app concat].
      split; [rewrite Hrun; do 3 f_equal; lia |].
      split; [by rewrite Hcat |].
      split; [by constructor |].
      split; [done |].
      split.
      { intros o Ho. destruct (Hout o Ho) as ([b Hb] & _ & Ho').
        rewrite Hother, Hw3, Hb, (content_Some _ _ _ Hb), app_nil_r; try done.
        - apply Ho'. lia.
        - intros [= E]. symmetry in E. revert E. apply Ho'. lia.
        - intros i Hi. apply Ho'. lia. }
      split.
      { intros [|i] g Hg.
        - injection Hg as <-. rewrite Z.add_0_r, (Hopen _ eq_refl).
          unfold content. cbn. rewrite lookup_insert_eq. cbn.
          f_equal. unfold unlines. cbn. by rewrite app_nil_r, <- !app_assoc.
        - replace (c + Z.of_nat (S i)) with (c + 1 + Z.of_nat i) by lia. by apply Hparts. }
      split.
      { intros f Hf Hfi. rewrite Hother, Hw3; try done.
        - apply Hfi. lia.
        - intros [= E]. symmetry in E. revert E. apply Hfi. lia.
        - intros i Hi. apply Hfi. lia. }
      split; [done |]. split; [done |].
      intros Hnw. cbn [total] in Hnw. pose proof (total_nonneg ls).
      rewrite Z.mod_small in Hsize by lia.
      destruct Hsize as [Hg0 Hfits]; [lia |].
      split; [done |]. constructor; [|done].
      destruct g0 as [|l' g0]; [done |]. cbn [fits]. cbn [total] in *. apply Hg0. done.
    + (* the line joins the open part *)
      apply orb_false_iff in Hnew as [Hcs' Hle].
      apply Z.eqb_neq in Hcs'. apply Z.ltb_ge in Hle.
      destruct out as [o|]; [|by specialize (Hcs0 eq_refl)].
      destruct (Hout o eq_refl) as ([b Hb] & Hpo & Ho').
      rewrite (chunkCSV_loop_append _ _ _ _ _ _ _ _ Hget)
        by (apply orb_false_iff; split; [by apply Z.eqb_neq | by apply Z.ltb_ge]).
      cbn [output_line].
      set (w1 := ofstream_write w o (l ++ [LF])).
      assert (Hw1 : ∀ f, f ≠ o → files w1 !! f = files w !! f).
      { intros f Hf. cbn. by apply lookup_insert_ne. }
      assert (Hsrc : files w1 !! in_path s' = files w !! in_path s').
      { apply Hw1. by rewrite Hpath. }
      destruct (IH w1 s' (Some o) ((cs + Z.of_nat (length l)) mod ULONG_MOD) c fuel)
        as (g0 & gs & w' & Hrun & Hcat & Hnonempty & _ & Hopen & Hparts & Hother
            & Hden & Hcon & Hsize).
      { by rewrite (in_rest_eq _ _ _ Hsrc). }
      { by apply (ready_eq w). }
      { intros i Hi. rewrite Hpath. apply Hne. lia. }
      { intros i Hi. apply Hok. lia. }
      { intros o' [= <-]. split; [cbn; rewrite lookup_insert_eq; eauto |].
        split; [by rewrite Hpath |]. intros i Hi. apply Ho'. lia. }
      { done. }
      { apply Z.mod_pos_bound. done. }
      { lia. } { lia. }
      assert (Hlen : (length gs ≤ length ls)%nat).
      { rewrite Hcat, length_app. pose proof (groups_length gs Hnonempty). lia. }
      exists (l :: g0), gs, w'.
      split; [done |].
      split; [by rewrite Hcat |].
      split; [done |].
      split; [done |].
      split.
      { intros o' [= <-]. rewrite (Hopen _ eq_refl). f_equal.
        unfold content at 1. cbn. rewrite lookup_insert_eq. cbn.
        unfold unlines. cbn. by rewrite <- !app_assoc. }
      split; [done |].
      split.
      { intros f Hf Hfi. rewrite Hother, Hw1; try done. congruence. }
      split; [done |]. split; [done |].
      intros Hnw. cbn [total] in Hnw. pose proof (total_nonneg ls).
      rewrite Z.mod_small in Hsize, Hle by lia.
      destruct Hsize as [Hg0 Hfits]; [lia |].
      split; [|done]. intros _. cbn [total].
      destruct g0 as [|l' g0]; [cbn [total]; lia |].
      assert (cs + Z.of_nat (length l) + total (l' :: g0) ≤ T) by by apply Hg0.
      lia.
Qed.
End chunkCSV_spec.

Lemma until_LF_id (l : bytes) : LF ∉ l → until_LF l = l.
Proof.
  induction l as [|b l IH]; [done |]. intros Hno.
  apply not_elem_of_cons in Hno as [Hb Hl]. cbn.
  destruct (is_LF b) eqn:E; [apply is_LF_true in E; congruence |]. by rewrite IH.
Qed.

Lemma lines_of_single (l : bytes) : LF ∉ l → l ≠ [] → lines_of l = [l].
Proof.
  intros Hno Hne. rewrite lines_of_unfold, until_LF_id by done.
  by rewrite drop_ge by lia.
Qed.

Section chunkCSV_run.
Variables (prefix : string) (T : Z).

Local Abbreviation name := (part_name prefix ".csv").

(** [chunkCSV] on a source with a header line: the data lines are cut into
    consecutive non-empty groups, part [i] holds the header and group [i]. *)
Lemma chunkCSV_spec (w : world) (path : string) (src header : bytes)
    (data : list bytes) (fuel : nat) :
  let n := Z.of_nat (length data) in
  files w !! path = Some src →
  lines_of src = header :: data →
  (∀ i, 1 ≤ i ≤ n → path ≠ name i) →
  (∀ i, 1 ≤ i ≤ n → name i ∉ denied w) →
  n < INT_MAX →
  n < Z.of_nat fuel →
  ∃ (gs : list (list bytes)) (w' : world),
    chunkCSV fuel w path prefix T = Done w' ∧
    concat gs = data ∧
    Forall (λ g, g ≠ []) gs ∧
    (∀ (i : nat) g, gs !! i = Some g →
       files w' !! name (1 + Z.of_nat i) = Some (unlines (header :: g))) ∧
    (∀ f, (∀ i, 1 ≤ i ≤ Z.of_nat (length gs) → f ≠ name i) →
          files w' !! f = files w !! f) ∧
    denied w' = denied w ∧
    console w' = console w ++ [(Cout, csv_files_created (Z.of_nat (length gs)))] ∧
    (total data < ULONG_MOD → Forall (fits T) gs).
Proof.
  intros n Hsrc Hlines Hne Hok Hmax Hfuel. unfold chunkCSV, ifstream_open. rewrite Hsrc.
  set (s := {| in_path := path; in_pos := 0; in_eof := false; in_fail := false |}).
  assert (Hrest : in_rest w s = src).
  { unfold in_rest. cbn. by rewrite (content_Some _ _ _ Hsrc). }
  assert (Hready : ready w s) by done.
  rewrite <- Hrest in Hlines.
  destruct (getline_Some w s header data Hready Hlines)
    as (s' & Hget & Hpath & Hready' & Hls').
  rewrite Hget.
  destruct (chunkCSV_loop_spec prefix T header data w s' None 0 1 fuel)
    as (g0 & gs & w' & Hrun & Hcat & Hnonempty & Hg0 & _ & Hparts & Hother
        & Hden & Hcon & Hsize); try done.
  { intros i Hi. rewrite Hpath. apply Hne. subst n. cbn [in_path s]. lia. }
  { intros i Hi. apply Hok. subst n. lia. }
  { subst n. lia. }
  { subst n. lia. }
  rewrite (Hg0 eq_refl) in *. cbn [app] in Hcat.
  rewrite Hrun. exists gs, (print w' Cout (csv_files_created (Z.of_nat (length gs)))).
  repeat split; try done.
  - unfold csv_files_created.
    by replace (1 + Z.of_nat (length gs) - 1) with (Z.of_nat (length gs)) by lia.
  - intros f Hf. apply Hother; [done |]. intros i Hi. apply Hf. lia.
  - cbn. by rewrite Hcon.
  - intros Hnw. by apply Hsize.
Qed.

(** Without a data line nothing is created. *)
Lemma chunkCSV_no_data (w : world) (path : string) (src : bytes) (fuel : nat) :
  files w !! path = Some src →
  (length (lines_of src) ≤ 1)%nat →
  (1 ≤ fuel)%nat →
  chunkCSV fuel w path prefix T = Done (print w Cout (csv_files_created 0)).
Proof.
  intros Hsrc Hlines Hfuel. unfold chunkCSV, ifstream_open. rewrite Hsrc.
  set (s := {| in_path := path; in_pos := 0; in_eof := false; in_fail := false |}).
  assert (Hrest : in_rest w s = src).
  { unfold in_rest. cbn. by rewrite (content_Some _ _ _ Hsrc). }
  assert (Hready : ready w s) by done.
  destruct (lines_of src) as [|header [|l data]] eqn:E; [| |cbn in Hlines; lia].
  - rewrite <- Hrest in E. pose proof (getline_None w s Hready E) as Hget.
    by destruct (getline w s) as [[l|] s'].
  - rewrite <- Hrest in E.
    destruct (getline_Some w s header [] Hready E) as (s' & Hget & _ & Hready' & Hls').
    rewrite Hget. destruct fuel as [|fuel]; [lia |].
    by rewrite chunkCSV_loop_end by by apply getline_None.
Qed.
End chunkCSV_run.

(** ** The line-oriented joiner *)

Lemma joined_headers (h : bytes) (gs : list (list bytes)) :
  joined false (map (cons h) gs) = concat gs.
Proof. induction gs as [|g gs IH]; cbn; [done |]. by rewrite IH. Qed.

Section joinCSV_spec.
Variables (prefix out : string).

Local Abbreviation name := (part_name prefix ".csv").

Lemma getline_failed (w : world) (s : ifstream) :
  in_fail s = true → ∃ s', getline w s = (None, s') ∧ in_fail s' = true.
Proof.
  intros H. unfold getline. rewrite H, orb_true_r. eauto.
Qed.

Lemma getline_empty (w : world) (s : ifstream) :
  ready w s → lines_of (in_rest w s) = [] →
  ∃ s', getline w s = (None, s') ∧ in_fail s' = true.
Proof.
  intros [Hfail Heof] Hls. apply lines_of_nil_inv in Hls.
  unfold getline. rewrite Hfail, Hls. destruct (in_eof s); cbn; eauto.
Qed.

(** The inner loop copies the lines left in a part to the output. *)
Lemma joinCSV_copy_spec (ls : list bytes) :
  ∀ (w : world) (s : ifstream) (fuel : nat),
    lines_of (in_rest w s) = ls → ready w s →
    in_path s ≠ out → is_Some (files w !! out) →
    (length ls < fuel)%nat →
    ∃ w', joinCSV_copy fuel out w s = Done w' ∧
          files w' = <[out := content w out ++ unlines ls]> (files w) ∧
          denied w' = denied w ∧ console w' = console w.
Proof.
  induction ls as [|l ls IH]; intros w s fuel Hls Hready Hne [b Hb] Hfuel.
  all: destruct fuel as [|fuel]; [cbn in Hfuel; lia |]; cbn [joinCSV_copy].
  - destruct (getline_empty w s Hready Hls) as (s' & -> & _).
    exists w. repeat split; try done.
    rewrite (content_Some _ _ _ Hb), app_nil_r. symmetry. by apply insert_id.
  - destruct (getline_Some w s l ls Hready Hls) as (s' & -> & Hpath & Hready' & Hls').
    set (w1 := ofstream_write w out (l ++ [LF])).
    assert (Hsrc : files w1 !! in_path s' = files w !! in_path s').
    { cbn. apply lookup_insert_ne. by rewrite Hpath. }
    destruct (IH w1 s' fuel) as (w' & Hrun & Hfiles & Hden & Hcon).
    { by rewrite (in_rest_eq _ _ _ Hsrc). }
    { by apply (ready_eq w). }
    { by rewrite Hpath. }
    { cbn. rewrite lookup_insert_eq. eauto. }
    { cbn in Hfuel. lia. }
    exists w'. repeat split; try done.
    rewrite Hfiles. unfold content at 1. cbn. rewrite lookup_insert_eq, insert_insert_eq.
    cbn. unfold unlines. cbn. by rewrite <- !app_assoc.
Qed.

Lemma joinCSV_copy_failed (fuel : nat) (w : world) (s : ifstream) :
  in_fail s = true → (0 < fuel)%nat → joinCSV_copy fuel out w s = Done w.
Proof.
  intros H Hfuel. destruct fuel as [|fuel]; [lia |].
  cbn [joinCSV_copy]. by destruct (getline_failed w s H) as (s' & -> & _).
Qed.

(** The outer loop over parts [c, c+1, ...] whose lines are [ps], with the
    next name absent. *)
Lemma joinCSV_loop_spec (ps : list (list bytes)) :
  ∀ (w : world) (isFirstChunk : bool) (c : Z) (fuel : nat),
    (∀ (i : nat) p, ps !! i = Some p →
       files w !! name (c + Z.of_nat i) = Some (unlines p)) →
    Forall (Forall (λ l, LF ∉ l)) ps →
    files w !! name (c + Z.of_nat (length ps)) = None →
    is_Some (files w !! out) →
    (∀ i, c ≤ i ≤ c + Z.of_nat (length ps) → out ≠ name i) →
    c + Z.of_nat (length ps) ≤ INT_MAX →
    (length ps + length (concat ps) < fuel)%nat →
    ∃ w', joinCSV_loop fuel prefix out w isFirstChunk c = Done w' ∧
          files w' = <[out := content w out ++ unlines (joined isFirstChunk ps)]> (files w) ∧
          denied w' = denied w ∧ console w' = console w.
Proof.
  induction ps as [|p ps IH];
    intros w isFirstChunk c fuel Hparts Hlf Hgap [b Hb] Hout Hmax Hfuel.
  all: destruct fuel as [|fuel]; [cbn in Hfuel; lia |]; cbn [joinCSV_loop].
  all: change (prefix +:+ to_string c +:+ ".csv") with (name c).
  - cbn in Hgap. rewrite Z.add_0_r in Hgap. unfold ifstream_open. rewrite Hgap.
    exists w. repeat split; try done. cbn.
    rewrite (content_Some _ _ _ Hb), app_nil_r. symmetry. by apply insert_id.
  - assert (Hp : files w !! name c = Some (unlines p)).
    { specialize (Hparts 0%nat p eq_refl). by rewrite Z.add_0_r in Hparts. }
    cbn [length concat] in *. rewrite length_app in Hfuel.
    apply Forall_cons in Hlf as [Hlfp Hlf].
    unfold ifstream_open. rewrite Hp.
    set (s := {| in_path := name c; in_pos := 0; in_eof := false; in_fail := false |}).
    assert (Hrest : lines_of (in_rest w s) = p).
    { unfold in_rest. cbn. rewrite (content_Some _ _ _ Hp). by apply lines_of_unlines. }
    assert (Hready : ready w s) by done.
    assert (Hc : (c =? INT_MAX) = false) by (apply Z.eqb_neq; lia).
    assert (Hoc : out ≠ name c) by (apply Hout; lia).
    assert (Hnext : ∀ w2 first flag,
      files w2 = <[out := content w out ++ unlines first]> (files w) →
      denied w2 = denied w → console w2 = console w →
      ∃ w', joinCSV_loop fuel prefix out w2 flag (c + 1) = Done w' ∧
            files w' = <[out := content w out ++ unlines (first ++ joined flag ps)]> (files w) ∧
            denied w' = denied w ∧ console w' = console w).
    { intros w2 first flag Hf2 Hd2 Hc2.
      assert (Hw2 : ∀ i, c ≤ i ≤ c + Z.of_nat (S (length ps)) →
                         files w2 !! name i = files w !! name i).
      { intros i Hi. rewrite Hf2. apply lookup_insert_ne. by apply Hout. }
      destruct (IH w2 flag (c + 1) fuel) as (w' & Hrun & Hfiles & Hden & Hcon).
      { intros i q Hq. pose proof (lookup_lt_Some _ _ _ Hq). rewrite Hw2 by lia.
        replace (c + 1 + Z.of_nat i) with (c + Z.of_nat (S i)) by lia. by apply Hparts. }
      { done. }
      { rewrite Hw2 by lia. rewrite <- Hgap. do 2 f_equal. lia. }
      { rewrite Hf2, lookup_insert_eq. eauto. }
      { intros i Hi. apply Hout. lia. }
      { lia. } { lia. }
      exists w'. split; [done |]. split; [|by rewrite Hden, Hcon].
      rewrite Hfiles, Hf2. unfold content at 1. rewrite Hf2, lookup_insert_eq, insert_insert_eq.
      cbn. by rewrite unlines_app, app_assoc. }
    destruct p as [|h g].
    + (* an empty part: nothing to read, the flag stays *)
      destruct (getline_empty w s Hready Hrest) as (s' & -> & Hfail).
      rewrite joinCSV_copy_failed, Hc by (done || lia).
      apply (Hnext w [] isFirstChunk); try done.
      rewrite (content_Some _ _ _ Hb), app_nil_r. symmetry. by apply insert_id.
    + destruct (getline_Some w s h g Hready Hrest) as (s' & -> & Hpath & Hready' & Hls').
      set (first := if isFirstChunk then [h] else []).
      set (w1 := if isFirstChunk then ofstream_write w out (h ++ [LF]) else w).
      assert (Hw1 : files w1 = <[out := content w out ++ unlines first]> (files w)
                    ∧ denied w1 = denied w ∧ console w1 = console w).
      { unfold w1, first. destruct isFirstChunk; cbn.
        - by rewrite app_nil_r.
        - rewrite (content_Some _ _ _ Hb), app_nil_r. split; [|done].
          symmetry. by apply insert_id. }
      destruct Hw1 as (Hf1 & Hd1 & Hc1).
      assert (Hsrc : files w1 !! in_path s' = files w !! in_path s').
      { rewrite Hf1, Hpath. by apply lookup_insert_ne. }
      destruct (joinCSV_copy_spec g w1 s' fuel) as (w2 & Hrun & Hf2 & Hd2 & Hc2).
      { by rewrite (in_rest_eq _ _ _ Hsrc). }
      { by apply (ready_eq w). }
      { rewrite Hpath. cbn. done. }
      { rewrite Hf1, lookup_insert_eq. eauto. }
      { cbn [length] in Hfuel. lia. }
      replace (match (if isFirstChunk then (ofstream_write w out (h ++ [LF]), false)
                      else (w, isFirstChunk)) with (w1', flag) => _ end)
        with (match joinCSV_copy fuel out w1 s' with
              | Done w2 => if c =? INT_MAX then Overflow
                           else joinCSV_loop fuel prefix out w2 false (c + 1)
              | OutOfFuel => OutOfFuel
              | Overflow => Overflow
              end)
        by (unfold w1; by destruct isFirstChunk).
      rewrite Hrun, Hc. cbn [joined]. fold first.
      destruct (Hnext w2 (first ++ g) false) as (w' & Hrun' & Hfiles & Hden & Hcon).
      { rewrite Hf2, Hf1. unfold content at 1. rewrite Hf1, lookup_insert_eq, insert_insert_eq.
        cbn. by rewrite unlines_app, app_assoc. }
      { by rewrite Hd2. } { by rewrite Hc2. }
      exists w'. rewrite <- app_assoc in Hfiles. done.
Qed.

(** [joinCSV] on parts [1 .. length ps] whose lines are [ps]. *)
Lemma joinCSV_spec (ps : list (list bytes)) (w : world) (fuel : nat) :
  (∀ (i : nat) p, ps !! i = Some p →
     files w !! name (1 + Z.of_nat i) = Some (unlines p)) →
  Forall (Forall (λ l, LF ∉ l)) ps →
  files w !! name (1 + Z.of_nat (length ps)) = None →
  out ∉ denied w →
  (∀ i, 1 ≤ i ≤ 1 + Z.of_nat (length ps) → out ≠ name i) →
  Z.of_nat (length ps) < INT_MAX →
  (length ps + length (concat ps) < fuel)%nat →
  ∃ w', joinCSV fuel w prefix out = Done w' ∧
        files w' = <[out := unlines (joined true ps)]> (files w) ∧
        denied w' = denied w ∧
        console w' = console w ++ [(Cout, "CSV file assembly complete!"%string)].
Proof.
  intros Hparts Hlf Hgap Hok Hout Hmax Hfuel.
  unfold joinCSV. rewrite ofstream_open_allowed by done.
  set (w0 := {| files := <[out := []]> (files w); denied := denied w; console := console w |}).
  assert (Hw0 : ∀ i, 1 ≤ i ≤ 1 + Z.of_nat (length ps) →
                     files w0 !! name i = files w !! name i).
  { intros i Hi. cbn. apply lookup_insert_ne. by apply Hout. }
  destruct (joinCSV_loop_spec ps w0 true 1 fuel) as (w' & Hrun & Hfiles & Hden & Hcon).
  { intros i p Hp. pose proof (lookup_lt_Some _ _ _ Hp). rewrite Hw0 by lia. by apply Hparts. }
  { done. }
  { by rewrite Hw0 by lia. }
  { cbn. rewrite lookup_insert_eq. eauto. }
  { done. } { lia. } { done. }
  rewrite Hrun. eexists. split; [done |]. cbn. rewrite Hden, Hcon. repeat split.
  rewrite Hfiles. unfold content. cbn. by rewrite lookup_insert_eq, insert_insert_eq.
Qed.
End joinCSV_spec.

Lemma total_lines_of (l : bytes) : total (lines_of l) ≤ Z.of_nat (length l).
Proof.
  induction l as [|b l IH]; [done |]. cbn [lines_of length].
  destruct (is_LF b); [cbn [total length]; lia |].
  destruct (lines_of l) as [|ln lns]; cbn [total length] in *; lia.
Qed.

(** A line longer than the threshold sits in a group of its own, and the
    groups before and after it hold exactly the lines before and after. *)
Lemma long_line_group (T : Z) (line : bytes) (after : list bytes) (gs : list (list bytes)) :
  ∀ before : list bytes,
    Forall (λ g, g ≠ []) gs → Forall (fits T) gs →
    T < Z.of_nat (length line) →
    concat gs = before ++ line :: after →
    ∃ k : nat, gs !! k = Some [line] ∧
               concat (take k gs) = before ∧ concat (drop (S k) gs) = after.
Proof.
  induction gs as [|g gs IH]; intros before Hne Hfits Hlong Hcat.
  { cbn in Hcat. by destruct before. }
  apply Forall_cons in Hne as [Hg Hne]. apply Forall_cons in Hfits as [Hfit Hfits].
  cbn [concat] in Hcat.
  apply app_eq_inv in Hcat as [(k & Hk1 & Hk2)|(k & Hk1 & Hk2)].
  - destruct k as [|x k].
    + destruct (IH [] Hne Hfits Hlong) as (i & Hi & Htake & Hdrop); [done |].
      exists (S i). cbn. rewrite Htake, app_nil_r, Hk1, app_nil_r. done.
    + injection Hk2 as <- ->. exists 0%nat.
      assert (before = [] ∧ k = []) as [-> ->].
      { pose proof (total_nonneg before). pose proof (total_nonneg k).
        destruct before as [|b1 before].
        - split; [done |]. destruct k as [|k1 k]; [done |].
          cbn in Hk1. subst g. cbn [fits total] in Hfit.
          pose proof (total_nonneg k). lia.
        - exfalso. subst g. destruct before as [|b2 before]; cbn [app fits] in Hfit.
          + cbn [total] in Hfit. lia.
          + change (b1 :: b2 :: before ++ line :: k) with ((b1 :: b2 :: before) ++ line :: k) in Hfit.
            rewrite total_app in Hfit. cbn [total] in Hfit.
            pose proof (total_nonneg before). pose proof (total_nonneg (b2 :: before)).
            cbn [total] in *. lia. }
      cbn in Hk1. subst g. done.
  - destruct (IH k Hne Hfits Hlong Hk2) as (i & Hi & Htake & Hdrop).
    exists (S i). cbn. by rewrite Htake, Hk1.
Qed.

(** ** Corollaries and checks used below *)

(** Two names that differ in a character that does not depend on the part
    number. *)
Ltac names_differ :=
  let E := fresh "E" in intros ? _ E; vm_compute in E; discriminate E.

(** No name is denied in a store built by [disk]. *)
Ltac none_denied := intros; apply not_elem_of_empty.

(** The sibling path: when [chunkCSV] cannot open a part it says so on
    [cerr] and returns at once. *)
Lemma chunkCSV_part_denied_reports (w : world) (path prefix : string) (T : Z)
    (src header l : bytes) (data : list bytes) (fuel : nat) :
  files w !! path = Some src →
  lines_of src = header :: l :: data →
  part_name prefix ".csv" 1 ∈ denied w →
  (1 ≤ fuel)%nat →
  chunkCSV fuel w path prefix T =
    Done (print w Cerr "Error: Unable to open chunk file for writing.").
Proof.
  intros Hsrc Hlines Hden Hfuel. unfold chunkCSV, ifstream_open. rewrite Hsrc.
  set (s := {| in_path := path; in_pos := 0; in_eof := false; in_fail := false |}).
  assert (Hrest : in_rest w s = src).
  { unfold in_rest. cbn. by rewrite (content_Some _ _ _ Hsrc). }
  assert (Hready : ready w s) by done.
  rewrite <- Hrest in Hlines.
  destruct (getline_Some w s header (l :: data) Hready Hlines)
    as (s1 & -> & _ & Hready1 & Hls1).
  destruct (getline_Some w s1 l data Hready1 Hls1) as (s2 & Hget & _).
  destruct fuel as [|fuel]; [lia |]. cbn [chunkCSV_loop]. rewrite Hget. cbn [Z.eqb orb].
  change (prefix +:+ to_string 1 +:+ ".csv") with (part_name prefix ".csv" 1).
  by rewrite ofstream_open_denied.
Qed.

(** Without part 1 the joiner writes an empty output and still reports
    completion. *)
Lemma joinFile_missing_first_part (w : world) (prefix out ext : string) (fuel : nat) :
  files w !! part_name prefix ext 1 = None →
  out ∉ denied w →
  out ≠ part_name prefix ext 1 →
  (1 ≤ fuel)%nat →
  ∃ w', joinFile fuel w prefix out ext = Done w' ∧
        files w' !! out = Some [] ∧
        console w' = console w ++ [(Cout, "Binary file assembly complete!"%string)].
Proof.
  intros Hgap Hok Hout Hfuel.
  destruct (joinFile_spec prefix out ext [] w fuel) as (w' & Hrun & Hfiles & _ & Hcon).
  - done.
  - done.
  - done.
  - intros i Hi. cbn [length] in Hi. by replace i with 1 by lia.
  - unfold UINT_MOD. cbn [length]. lia.
  - cbn [length]. lia.
  - exists w'. repeat split; try done. by rewrite Hfiles, lookup_insert_eq.
Qed.

(** With part 2 of a three-part set deleted, the output is part 1 alone. *)
Lemma joinFile_second_part_deleted (w : world) (prefix out ext : string)
    (p1 p2 p3 : bytes) (fuel : nat) :
  files w !! part_name prefix ext 1 = Some p1 →
  files w !! part_name prefix ext 2 = Some p2 →
  files w !! part_name prefix ext 3 = Some p3 →
  out ∉ denied w →
  out ≠ part_name prefix ext 1 → out ≠ part_name prefix ext 2 →
  (2 ≤ fuel)%nat →
  let w_gap := {| files := delete (part_name prefix ext 2) (files w);
                  denied := denied w; console := console w |} in
  ∃ w', joinFile fuel w_gap prefix out ext = Done w' ∧
        files w' !! out = Some p1 ∧
        console w' = console w ++ [(Cout, "Binary file assembly complete!"%string)].
Proof.
  intros H1 H2 H3 Hok Ho1 Ho2 Hfuel w_gap.
  destruct (joinFile_spec prefix out ext [p1] w_gap fuel) as (w' & Hrun & Hfiles & _ & Hcon).
  - intros [|i] p Hp; [|done]. injection Hp as <-. cbn.
    rewrite lookup_delete_ne; [done |]. intros E. by apply part_name_inj in E.
  - cbn. apply lookup_delete_eq.
  - done.
  - intros i Hi. cbn [length] in Hi. assert (i = 1 ∨ i = 2) as [-> | ->] by lia; done.
  - unfold UINT_MOD. cbn [length]. lia.
  - cbn [length]. lia.
  - exists w'. repeat split; try done.
    rewrite Hfiles, lookup_insert_eq. cbn. by rewrite app_nil_r.
Qed.

Lemma disk_single_fresh (n f : string) (c : bytes) :
  n ≠ f → files (disk [(n, c)]) !! f = None.
Proof. intros H. cbn. rewrite lookup_insert_ne by done. apply lookup_empty. Qed.

Lemma no_LF_check (l : bytes) : forallb (λ b, negb (is_LF b)) l = true → LF ∉ l.
Proof.
  induction l as [|b l IH]; cbn; [intros _; apply not_elem_of_nil |].
  intros [Hb Hl]%andb_true_iff. apply not_elem_of_cons. split; [|by apply IH].
  intros E. symmetry in E. apply is_LF_true in E. by rewrite E in Hb.
Qed.

(** The 8-byte source of [even_disk] with chunks of 4 bytes: two full parts
    and a third, empty one, where two parts hold the whole source. *)
Lemma chunkFile_exact_multiple_three_parts :
  ∃ w',
    chunkFile 10 even_disk "a.bin" "p" 4 = Done w' ∧
    files w' !! "p1.bin"%string = Some (text "ABCD") ∧
    files w' !! "p2.bin"%string = Some (text "EFGH") ∧
    files w' !! "p3.bin"%string = Some [] ∧
    console w' = [(Cout, "Binary chunking complete! 3 files created."%string)] ∧
    (8 + 4 - 1) / 4 = 2.
Proof. eexists. repeat split; vm_compute; reflexivity. Qed.

(** * The claims *)

(** C1. Binary round trip: for every source and every chunk size of at
    least one byte for which the buffer can be allocated (at most
    [STREAMSIZE_MAX] bytes), [chunkFile] followed by [joinFile] with the
    same prefix and the extension of the source leaves in the output
    exactly the bytes of the source (a non-empty source in particular).
    [N] is the number of parts.  The run is a clean one: the source is not
    itself one of the part names, the parts and the output can be opened,
    no file is left over under the name of part [N + 1], the output is not
    one of the probed names, and the [int] counter stays below
    [INT_MAX]. *)
Theorem binary_round_trip (w : world) (path prefix out : string) (T : Z)
    (src : bytes) (fuel1 fuel2 : nat) :
  let ext := extension_of path in
  let N := Z.of_nat (length src) / T + 1 in
  files w !! path = Some src →
  1 ≤ T →
  T ≤ STREAMSIZE_MAX →
  (∀ i, 1 ≤ i ≤ N → path ≠ part_name prefix ext i) →
  (∀ i, 1 ≤ i ≤ N → part_name prefix ext i ∉ denied w) →
  files w !! part_name prefix ext (N + 1) = None →
  out ∉ denied w →
  (∀ i, 1 ≤ i ≤ N + 1 → out ≠ part_name prefix ext i) →
  N < INT_MAX →
  N < Z.of_nat fuel1 → N < Z.of_nat fuel2 →
  ∃ w1 w2,
    chunkFile fuel1 w path prefix T = Done w1 ∧
    joinFile fuel2 w1 prefix out ext = Done w2 ∧
    files w2 !! out = Some src.
Proof.
  intros ext N Hsrc HT HTmax Hne Hok Hgap Hout Hout' Hmax Hf1 Hf2.
  destruct (chunkFile_spec prefix T HT w path src fuel1)
    as (ps & w1 & Hrun & Hcat & Hnum & _ & Hparts & Hother & Hden & _); try done.
  fold ext N in Hnum, Hparts, Hother.
  destruct (joinFile_spec prefix out ext ps w1 fuel2)
    as (w2 & Hjoin & Hfiles & _).
  - done.
  - replace (1 + Z.of_nat (length ps)) with (N + 1) by lia.
    rewrite Hother; [done |]. intros i Hi E. apply part_name_inj in E. lia.
  - by rewrite Hden.
  - intros i Hi. apply Hout'. lia.
  - unfold UINT_MOD, INT_MAX in *. lia.
  - lia.
  - exists w1, w2. repeat split; try done.
    by rewrite Hfiles, lookup_insert_eq, Hcat.
Qed.

(** The 10-byte source of the specification, in chunks of 4 bytes. *)
Lemma binary_round_trip_witness :
  ∃ w1 w2,
    chunkFile 10 song_disk "a.bin" "p" 4 = Done w1 ∧
    joinFile 10 w1 "p" "output.bin" ".bin" = Done w2 ∧
    files w2 !! "output.bin"%string = Some (text "ABCDEFGHIJ").
Proof.
  apply (binary_round_trip song_disk "a.bin" "p" "output.bin" 4 (text "ABCDEFGHIJ") 10 10).
  - reflexivity.
  - lia.
  - unfold STREAMSIZE_MAX. lia.
  - names_differ.
  - none_denied.
  - vm_compute. reflexivity.
  - none_denied.
  - names_differ.
  - vm_compute. reflexivity.
  - vm_compute. reflexivity.
  - vm_compute. reflexivity.
Defined.

(** C2. Line-oriented round trip: for a source with a header line and at
    least one data line and any threshold, [chunkCSV] followed by [joinCSV]
    with the same prefix leaves in the output the header line once,
    followed by all data lines of the source in their order.  The run is a
    clean one: no file exists under a part name of index up to [n + 1],
    where [n] is the number of data lines; the parts and the output can be
    opened, the output is not itself a part name, and the [int] counter
    stays below [INT_MAX]. *)
Theorem csv_round_trip (w : world) (path prefix out : string) (T : Z)
    (src header : bytes) (data : list bytes) (fuel1 fuel2 : nat) :
  let n := Z.of_nat (length data) in
  files w !! path = Some src →
  lines_of src = header :: data →
  data ≠ [] →
  (∀ i, 1 ≤ i ≤ n + 1 → files w !! part_name prefix ".csv" i = None) →
  (∀ i, 1 ≤ i ≤ n → part_name prefix ".csv" i ∉ denied w) →
  out ∉ denied w →
  (∀ i, 1 ≤ i ≤ n + 1 → out ≠ part_name prefix ".csv" i) →
  n < INT_MAX →
  n < Z.of_nat fuel1 → 3 * n < Z.of_nat fuel2 →
  ∃ w1 w2,
    chunkCSV fuel1 w path prefix T = Done w1 ∧
    joinCSV fuel2 w1 prefix out = Done w2 ∧
    files w2 !! out = Some (unlines (header :: data)).
Proof.
  intros n Hsrc Hlines Hdata Hfresh Hok Hout Hout' Hmax Hf1 Hf2.
  destruct (chunkCSV_spec prefix T w path src header data fuel1)
    as (gs & w1 & Hrun & Hcat & Hnonempty & Hparts & Hother & Hden & _); try done.
  { intros i Hi E. specialize (Hfresh i ltac:(lia)). by rewrite <- E, Hsrc in Hfresh. }
  assert (Hlen : (length gs ≤ length data)%nat).
  { rewrite <- Hcat. by apply groups_length. }
  assert (Hlf : Forall (λ l, LF ∉ l) (header :: data)).
  { rewrite <- Hlines. apply lines_of_no_LF. }
  apply Forall_cons in Hlf as [Hlfh Hlfd].
  set (ps := map (cons header) gs).
  assert (Hpslen : length ps = length gs) by apply length_map.
  assert (Hpscat : (length (concat ps) ≤ length gs + length data)%nat).
  { unfold ps. rewrite <- Hcat. clear. induction gs as [|g gs IH]; cbn; [done |].
    rewrite !length_app. lia. }
  destruct (joinCSV_spec prefix out ps w1 fuel2) as (w2 & Hjoin & Hfiles & _).
  - intros i p Hp. unfold ps in Hp. rewrite list_lookup_fmap in Hp.
    destruct (gs !! i) as [g|] eqn:Hg; [|done]. injection Hp as <-. by apply Hparts.
  - unfold ps. apply Forall_fmap. rewrite <- Hcat in Hlfd.
    apply Forall_concat in Hlfd. eapply Forall_impl; [apply Hlfd |].
    intros g Hg. by constructor.
  - rewrite Hpslen, Hother.
    + apply Hfresh. lia.
    + intros i Hi E. apply part_name_inj in E. lia.
  - by rewrite Hden.
  - intros i Hi. apply Hout'. lia.
  - lia.
  - lia.
  - exists w1, w2. repeat split; try done.
    rewrite Hfiles, lookup_insert_eq. do 2 f_equal.
    unfold ps. destruct gs as [|g gs]; [by rewrite <- Hcat in Hdata |].
    cbn. by rewrite joined_headers, <- Hcat.
Qed.

(** The table of the specification with threshold 3: three parts, joined again. *)
Lemma csv_round_trip_witness :
  ∃ w1 w2,
    chunkCSV 10 table_disk "a.csv" "p" 3 = Done w1 ∧
    joinCSV 10 w1 "p" "output.csv" = Done w2 ∧
    files w2 !! "output.csv"%string =
      Some (unlines [text "id,val"; text "1,a"; text "2,b"; text "3,c"]).
Proof.
  apply (csv_round_trip table_disk "a.csv" "p" "output.csv" 3 table_src
           (text "id,val") [text "1,a"; text "2,b"; text "3,c"] 10 10).
  - reflexivity.
  - vm_compute. reflexivity.
  - discriminate.
  - intros i _. apply (disk_single_fresh "a.csv"). intros E. vm_compute in E. discriminate E.
  - none_denied.
  - none_denied.
  - names_differ.
  - vm_compute. reflexivity.
  - vm_compute. reflexivity.
  - vm_compute. reflexivity.
Defined.

(** C3. What [chunkFile] does when part [k] cannot be opened for writing:
    the loop has no branch for the failed open, so nothing is read, the
    counter keeps its value and the same open is tried again.  Whatever the
    number of iterations allowed, the run has not ended: no message is
    printed and the function does not return.  (The claim asks for a report
    and an immediate stop, which is what [chunkCSV] does, see
    [chunkCSV_part_denied_reports].) *)
Theorem chunkFile_part_denied_spins (w : world) (path prefix : string) (T : Z)
    (src : bytes) (k : Z) (fuel : nat) :
  let ext := extension_of path in
  files w !! path = Some src →
  1 ≤ T →
  1 ≤ k ≤ Z.of_nat (length src) / T + 1 →
  k ≤ INT_MAX →
  part_name prefix ext k ∈ denied w →
  (∀ i, 1 ≤ i < k → part_name prefix ext i ∉ denied w) →
  (∀ i, 1 ≤ i < k → path ≠ part_name prefix ext i) →
  chunkFile fuel w path prefix T = OutOfFuel.
Proof.
  intros ext Hsrc HT Hk Hmax Hden Hok Hne. unfold chunkFile, ifstream_open. rewrite Hsrc.
  fold ext. rewrite (chunkFile_loop_denied prefix ext T HT fuel _ _ 1 k); try done.
  unfold in_rest. cbn [in_pos in_path]. rewrite (content_Some _ _ _ Hsrc), drop_0. lia.
Qed.

(** Part 2 of three cannot be opened: a thousand iterations do not end the run. *)
Lemma chunkFile_part_denied_spins_witness :
  chunkFile 1000 locked_disk "a.bin" "p" 4 = OutOfFuel.
Proof.
  apply (chunkFile_part_denied_spins locked_disk "a.bin" "p" 4 (text "ABCDEFGHIJ") 2 1000).
  - reflexivity.
  - lia.
  - vm_compute. split; discriminate.
  - vm_compute. discriminate.
  - vm_compute. reflexivity.
  - intros i Hi. replace i with 1 by lia. intros H. vm_compute in H. discriminate H.
  - names_differ.
Defined.

(** C4. The number of parts of the binary chunker when the chunk size
    divides the size of the source, [S = k * T]: the loop tests [eof()]
    before the read that would set it, so after [k] full parts it opens
    part [k + 1], reads nothing, and leaves it empty.  [k + 1] parts are
    created and reported, one more than [ceil(S / T) = k]. *)
Theorem chunkFile_exact_multiple_extra_part (w : world) (path prefix : string) (T : Z)
    (src : bytes) (k : Z) (fuel : nat) :
  let ext := extension_of path in
  files w !! path = Some src →
  1 ≤ T →
  Z.of_nat (length src) = k * T →
  (∀ i, 1 ≤ i ≤ k + 1 → path ≠ part_name prefix ext i) →
  (∀ i, 1 ≤ i ≤ k + 1 → part_name prefix ext i ∉ denied w) →
  k + 1 < INT_MAX →
  k + 1 < Z.of_nat fuel →
  ∃ w',
    chunkFile fuel w path prefix T = Done w' ∧
    files w' !! part_name prefix ext (k + 1) = Some [] ∧
    console w' = console w ++ [(Cout, files_created (k + 1))].
Proof.
  intros ext Hsrc HT Hlen Hne Hok Hmax Hfuel.
  assert (Hdiv : Z.of_nat (length src) / T = k) by (rewrite Hlen; apply Z.div_mul; lia).
  assert (Hk : 0 ≤ k) by nia.
  destruct (chunkFile_spec prefix T HT w path src fuel)
    as (ps & w' & Hrun & _ & Hnum & Hslice & Hparts & _ & _ & Hcon); rewrite ?Hdiv; try done.
  rewrite Hdiv in *.
  destruct (lookup_lt_is_Some_2 ps (Z.to_nat k) ltac:(lia)) as [p Hp].
  exists w'. repeat split; try done.
  specialize (Hparts _ _ Hp). fold ext in Hparts.
  replace (1 + Z.of_nat (Z.to_nat k)) with (k + 1) in Hparts by lia.
  rewrite Hparts, (Hslice _ _ Hp). f_equal.
  rewrite drop_ge by nia. by destruct (Z.to_nat T).
Qed.

(** Eight bytes in chunks of four: a third, empty part. *)
Lemma chunkFile_exact_multiple_extra_part_witness :
  ∃ w',
    chunkFile 10 even_disk "a.bin" "p" 4 = Done w' ∧
    files w' !! "p3.bin"%string = Some [] ∧
    console w' = [(Cout, "Binary chunking complete! 3 files created."%string)].
Proof.
  apply (chunkFile_exact_multiple_extra_part even_disk "a.bin" "p" 4 (text "ABCDEFGH") 2 10).
  - reflexivity.
  - lia.
  - reflexivity.
  - names_differ.
  - none_denied.
  - vm_compute. reflexivity.
  - vm_compute. reflexivity.
Defined.

(** C5. A data line longer than the threshold: [chunkCSV] ends, the line
    is the only data line of its part, right after the header, and the
    parts before and after that one hold exactly the data lines before and
    after it, so that no line is lost.  The source is shorter than [2^64]
    bytes, so that the [unsigned long] sum does not wrap. *)
Theorem csv_long_line_own_part (w : world) (path prefix : string) (T : Z)
    (src header line : bytes) (before after : list bytes) (fuel : nat) :
  let data := before ++ line :: after in
  let n := Z.of_nat (length data) in
  files w !! path = Some src →
  lines_of src = header :: data →
  T < Z.of_nat (length line) →
  Z.of_nat (length src) < ULONG_MOD →
  (∀ i, 1 ≤ i ≤ n → path ≠ part_name prefix ".csv" i) →
  (∀ i, 1 ≤ i ≤ n → part_name prefix ".csv" i ∉ denied w) →
  n < INT_MAX →
  n < Z.of_nat fuel →
  ∃ (w' : world) (gs : list (list bytes)) (k : nat),
    chunkCSV fuel w path prefix T = Done w' ∧
    files w' !! part_name prefix ".csv" (1 + Z.of_nat k) = Some (unlines [header; line]) ∧
    (∀ (i : nat) g, gs !! i = Some g →
       files w' !! part_name prefix ".csv" (1 + Z.of_nat i) = Some (unlines (header :: g))) ∧
    gs !! k = Some [line] ∧
    concat (take k gs) = before ∧
    concat (drop (S k) gs) = after ∧
    concat gs = data ∧
    console w' = console w ++ [(Cout, csv_files_created (Z.of_nat (length gs)))].
Proof.
  intros data n Hsrc Hlines Hlong Hsize Hne Hok Hmax Hfuel.
  destruct (chunkCSV_spec prefix T w path src header data fuel)
    as (gs & w' & Hrun & Hcat & Hnonempty & Hparts & _ & _ & Hcon & Hfits); try done.
  pose proof (total_lines_of src) as Htot. rewrite Hlines in Htot. cbn [total] in Htot.
  destruct (long_line_group T line after gs before Hnonempty) as (k & Hk & Htake & Hdrop);
    try done.
  { apply Hfits. lia. }
  exists w', gs, k. repeat split; try done. by apply Hparts.
Qed.

(** A nine-byte line between two short ones, threshold 5. *)
Lemma csv_long_line_own_part_witness :
  ∃ (w' : world) (gs : list (list bytes)) (k : nat),
    chunkCSV 10 wide_disk "a.csv" "p" 5 = Done w' ∧
    files w' !! part_name "p" ".csv" (1 + Z.of_nat k) =
      Some (unlines [text "id,val"; text "2,bbbbbbbb"]) ∧
    (∀ (i : nat) g, gs !! i = Some g →
       files w' !! part_name "p" ".csv" (1 + Z.of_nat i) =
         Some (unlines (text "id,val" :: g))) ∧
    gs !! k = Some [text "2,bbbbbbbb"] ∧
    concat (take k gs) = [text "1,a"] ∧
    concat (drop (S k) gs) = [text "3,c"] ∧
    concat gs = [text "1,a"; text "2,bbbbbbbb"; text "3,c"] ∧
    console w' = [(Cout, csv_files_created (Z.of_nat (length gs)))].
Proof.
  apply (csv_long_line_own_part wide_disk "a.csv" "p" 5 wide_src (text "id,val")
           (text "2,bbbbbbbb") [text "1,a"] [text "3,c"] 10).
  - reflexivity.
  - vm_compute. reflexivity.
  - vm_compute. reflexivity.
  - vm_compute. reflexivity.
  - names_differ.
  - none_denied.
  - vm_compute. reflexivity.
  - vm_compute. reflexivity.
Defined.

(** C6, counterexample to the claim as stated: a CRLF source gives parts
    whose lines end in CR LF; the carriage returns are all still there. *)
Lemma csv_crlf_keeps_CR :
  ∃ (w' : world) (part : bytes),
    chunkCSV 10 crlf_disk "a.csv" "p" 10 = Done w' ∧
    files w' !! "p1.csv"%string = Some part ∧
    part = text "h" ++ [CR; LF] ++ text "a" ++ [CR; LF] ∧
    CR ∈ part.
Proof.
  eexists _, _. split; [vm_compute; reflexivity |].
  split; [vm_compute; reflexivity |]. split; [reflexivity |].
  apply list_elem_of_lookup. by exists 1%nat.
Qed.

(** C6, as amended.  Every part [chunkCSV] writes consists of the header
    and a run of consecutive data lines, each followed by exactly one line
    feed; a line is what [getline] extracted, that is all bytes up to the
    line feed, and holds no line feed itself.  Nothing else is removed or
    replaced: the carriage return of a CRLF line ending stays the last byte
    of its line. *)
Theorem csv_parts_keep_line_bytes (w : world) (path prefix : string) (T : Z)
    (src header : bytes) (data : list bytes) (fuel : nat) :
  let n := Z.of_nat (length data) in
  files w !! path = Some src →
  lines_of src = header :: data →
  (∀ i, 1 ≤ i ≤ n → path ≠ part_name prefix ".csv" i) →
  (∀ i, 1 ≤ i ≤ n → part_name prefix ".csv" i ∉ denied w) →
  n < INT_MAX →
  n < Z.of_nat fuel →
  ∃ (w' : world) (gs : list (list bytes)),
    chunkCSV fuel w path prefix T = Done w' ∧
    concat gs = data ∧
    (∀ (i : nat) g, gs !! i = Some g →
       files w' !! part_name prefix ".csv" (1 + Z.of_nat i) =
         Some (concat (map (λ l, l ++ [LF]) (header :: g)))) ∧
    Forall (λ l, LF ∉ l) (header :: data) ∧
    (∀ f, (∀ i, 1 ≤ i ≤ Z.of_nat (length gs) → f ≠ part_name prefix ".csv" i) →
          files w' !! f = files w !! f).
Proof.
  intros n Hsrc Hlines Hne Hok Hmax Hfuel.
  destruct (chunkCSV_spec prefix T w path src header data fuel)
    as (gs & w' & Hrun & Hcat & _ & Hparts & Hother & _); try done.
  exists w', gs. repeat split; try done.
  rewrite <- Hlines. apply lines_of_no_LF.
Qed.

(** The CRLF source again: header and data line keep their carriage return. *)
Lemma csv_parts_keep_line_bytes_witness :
  ∃ (w' : world) (gs : list (list bytes)),
    chunkCSV 10 crlf_disk "a.csv" "p" 10 = Done w' ∧
    concat gs = [text "a" ++ [CR]] ∧
    (∀ (i : nat) g, gs !! i = Some g →
       files w' !! part_name "p" ".csv" (1 + Z.of_nat i) =
         Some (concat (map (λ l, l ++ [LF]) ((text "h" ++ [CR]) :: g)))) ∧
    Forall (λ l, LF ∉ l) [text "h" ++ [CR]; text "a" ++ [CR]] ∧
    (∀ f, (∀ i, 1 ≤ i ≤ Z.of_nat (length gs) → f ≠ part_name "p" ".csv" i) →
          files w' !! f = files crlf_disk !! f).
Proof.
  apply (csv_parts_keep_line_bytes crlf_disk "a.csv" "p" 10 crlf_src
           (text "h" ++ [CR]) [text "a" ++ [CR]] 10).
  - reflexivity.
  - vm_compute. reflexivity.
  - names_differ.
  - none_denied.
  - vm_compute. reflexivity.
  - vm_compute. reflexivity.
Defined.

(** C7. The binary joiner on a part set whose first missing index is [k]:
    with parts [1 .. k-1] holding [ps], [joinFile] ends, the output holds
    the concatenation of [ps] and the only message is the one of success on
    [cout].  A missing part 1 is the case [ps = []]
    ([joinFile_missing_first_part]); a three-part set without its part 2 is
    the case [ps = [p1]] ([joinFile_second_part_deleted]).  The output can
    be opened and is not one of the probed names. *)
Theorem joinFile_stops_at_first_gap (w : world) (prefix out ext : string)
    (ps : list bytes) (fuel : nat) :
  let k := 1 + Z.of_nat (length ps) in
  (∀ (i : nat) p, ps !! i = Some p →
     files w !! part_name prefix ext (1 + Z.of_nat i) = Some p) →
  files w !! part_name prefix ext k = None →
  out ∉ denied w →
  (∀ i, 1 ≤ i ≤ k → out ≠ part_name prefix ext i) →
  k < UINT_MOD →
  k ≤ Z.of_nat fuel →
  ∃ w',
    joinFile fuel w prefix out ext = Done w' ∧
    files w' !! out = Some (concat ps) ∧
    console w' = console w ++ [(Cout, "Binary file assembly complete!"%string)].
Proof.
  intros k Hparts Hgap Hok Hout Hmax Hfuel.
  destruct (joinFile_spec prefix out ext ps w fuel) as (w' & Hrun & Hfiles & _ & Hcon);
    try done; [lia |].
  exists w'. repeat split; try done. by rewrite Hfiles, lookup_insert_eq.
Qed.

(** Parts 1 and 3 on disk, part 2 missing: the output is part 1. *)
Lemma joinFile_stops_at_first_gap_witness :
  ∃ w',
    joinFile 5 gap_disk "p" "output.bin" ".bin" = Done w' ∧
    files w' !! "output.bin"%string = Some (text "ABCD") ∧
    console w' = [(Cout, "Binary file assembly complete!"%string)].
Proof.
  apply (joinFile_stops_at_first_gap gap_disk "p" "output.bin" ".bin" [text "ABCD"] 5).
  - intros [|i] p Hp; [|done]. injection Hp as <-. vm_compute. reflexivity.
  - vm_compute. reflexivity.
  - none_denied.
  - names_differ.
  - vm_compute. reflexivity.
  - vm_compute. discriminate.
Defined.

(** C8. The guard of [chunkCSV] is [currentSize == 0], not "no data line
    written yet": after an empty data line the accumulated size is still
    0.  Here the data lines are an empty line and ["x"] with threshold 10:
    the empty line is written to part 1, and ["x"] then opens part 2 although
    part 1 has a data line and [0 + 1] does not exceed 10. *)
Theorem csv_blank_line_closes_part :
  ∃ w',
    chunkCSV 10 blank_disk "a.csv" "p" 10 = Done w' ∧
    files w' !! "p1.csv"%string = Some (unlines [text "h"; []]) ∧
    files w' !! "p2.csv"%string = Some (unlines [text "h"; text "x"]) ∧
    console w' = [(Cout, "CSV chunking complete! 2 files created."%string)].
Proof. eexists. repeat split; vm_compute; reflexivity. Qed.

(** C9. A source without data lines (nothing at all, or a header line
    with or without its newline): [chunkCSV] creates no file and reports
    zero files created. *)
Theorem chunkCSV_no_data_lines (w : world) (path prefix : string) (T : Z)
    (src h : bytes) (fuel : nat) :
  files w !! path = Some src →
  LF ∉ h →
  src = h ∨ src = h ++ [LF] →
  (1 ≤ fuel)%nat →
  ∃ w',
    chunkCSV fuel w path prefix T = Done w' ∧
    files w' = files w ∧
    console w' = console w ++ [(Cout, "CSV chunking complete! 0 files created."%string)].
Proof.
  intros Hsrc Hlf Hshape Hfuel.
  rewrite (chunkCSV_no_data prefix T w path src fuel Hsrc); [by eexists | | done].
  destruct Hshape as [->| ->].
  - destruct h as [|b h]; [cbn; lia |]. rewrite lines_of_single by done. cbn. lia.
  - replace (h ++ [LF]) with (unlines [h]) by (unfold unlines; cbn; by rewrite app_nil_r).
    rewrite lines_of_unlines by (by repeat constructor). cbn. lia.
Qed.

(** A header line alone. *)
Lemma chunkCSV_no_data_lines_witness :
  ∃ w',
    chunkCSV 1 header_only_disk "a.csv" "p" 3 = Done w' ∧
    files w' = files header_only_disk ∧
    console w' = [(Cout, "CSV chunking complete! 0 files created."%string)].
Proof.
  apply (chunkCSV_no_data_lines header_only_disk "a.csv" "p" 3
           (unlines [text "id,val"]) (text "id,val") 1).
  - reflexivity.
  - apply no_LF_check. reflexivity.
  - right. reflexivity.
  - lia.
Defined.

(** C10. An empty binary source: for a chunk size of [1] to
    [STREAMSIZE_MAX] bytes, [chunkFile] creates exactly one file, empty,
    named with index 1 and the extension of the source, and reports one
    file created. *)
Theorem chunkFile_empty_source (w : world) (path prefix : string) (T : Z) (fuel : nat) :
  let part1 := part_name prefix (extension_of path) 1 in
  files w !! path = Some [] →
  1 ≤ T →
  T ≤ STREAMSIZE_MAX →
  path ≠ part1 →
  part1 ∉ denied w →
  (2 ≤ fuel)%nat →
  ∃ w',
    chunkFile fuel w path prefix T = Done w' ∧
    files w' = <[part1 := []]> (files w) ∧
    console w' =
      console w ++ [(Cout, "Binary chunking complete! 1 files created."%string)].
Proof.
  intros part1 Hsrc HT HTmax Hne Hok Hfuel.
  assert (HN : Z.of_nat (length (@nil byte)) / T + 1 = 1) by done.
  destruct (chunkFile_spec prefix T HT w path [] fuel)
    as (ps & w' & Hrun & Hcat & Hnum & _ & Hparts & Hother & _ & Hcon).
  { done. }
  { rewrite HN. intros i Hi. by replace i with 1 by lia. }
  { rewrite HN. intros i Hi. by replace i with 1 by lia. }
  { by rewrite HN. }
  { rewrite HN. lia. }
  rewrite HN in *.
  assert (ps = [[]]) as ->.
  { destruct ps as [|p [|q ps]]; cbn in Hnum; try lia.
    cbn in Hcat. rewrite app_nil_r in Hcat. by subst. }
  exists w'. repeat split; try done.
  apply map_eq. intros f. rewrite lookup_insert. case_decide as E.
  - subst f. apply (Hparts 0%nat). done.
  - apply Hother. intros i Hi. by replace i with 1 by lia.
Qed.

(** An empty [a.bin]. *)
Lemma chunkFile_empty_source_witness :
  ∃ w',
    chunkFile 2 empty_disk "a.bin" "p" 4 = Done w' ∧
    files w' = <["p1.bin"%string := []]> (files empty_disk) ∧
    console w' = [(Cout, "Binary chunking complete! 1 files created."%string)].
Proof.
  apply (chunkFile_empty_source empty_disk "a.bin" "p" 4 2).
  - reflexivity.
  - lia.
  - unfold STREAMSIZE_MAX. lia.
  - vm_compute. discriminate.
  - none_denied.
  - lia.
Defined.

(** * Further properties of the code *)

(** ** File names *)

Lemma append_assoc (a b c : string) : (a +:+ b) +:+ c = a +:+ (b +:+ c).
Proof.
  induction a as [|x a IH]; [done |].
  change (String x ((a +:+ b) +:+ c) = String x (a +:+ (b +:+ c))). by rewrite IH.
Qed.

(** The last character of a string. *)
Lemma append_last (s : string) (a b : ascii) (t : string) :
  s +:+ String a "" = t +:+ String b "" → a = b.
Proof.
  revert t. induction s as [|x s IH]; intros [|y t] H.
  - by injection H.
  - injection H as _ H. destruct t; discriminate H.
  - injection H as _ H. destruct s; discriminate H.
  - injection H as _ H. by apply (IH t).
Qed.

Lemma string_of_uint_last (d : Decimal.uint) :
  d ≠ Decimal.Nil →
  ∃ s a, NilEmpty.string_of_uint d = s +:+ String a "" ∧ is_digit a = true.
Proof.
  induction d as [|d IH|d IH|d IH|d IH|d IH|d IH|d IH|d IH|d IH|d IH]; intros Hd; [done | ..].
  all: assert (d = Decimal.Nil ∨ d ≠ Decimal.Nil) as [->|Hne]
         by (destruct d; [by left | by right ..]);
    [ eexists "", _; split; [reflexivity | reflexivity]
    | destruct (IH Hne) as (s & a & Hs & Ha); cbn [NilEmpty.string_of_uint]; rewrite Hs;
      eexists (String _ s), a; split; [reflexivity | done] ].
Qed.

Lemma to_string_last (z : Z) :
  ∃ s a, to_string z = s +:+ String a "" ∧ is_digit a = true.
Proof.
  unfold to_string. destruct (to_int_not_nil z) as [Hp Hn].
  destruct (Z.to_int z) as [d|d]; cbn [NilZero.string_of_int].
  - assert (Hd : d ≠ Decimal.Nil) by congruence.
    destruct (string_of_uint_last d Hd) as (s & a & Hs & Ha).
    exists s, a. split; [|done].
    assert (NilZero.string_of_uint d = NilEmpty.string_of_uint d) as -> by by destruct d.
    done.
  - assert (Hd : d ≠ Decimal.Nil) by congruence.
    destruct (string_of_uint_last d Hd) as (s & a & Hs & Ha).
    exists (String "-" s), a. split; [|done].
    assert (NilZero.string_of_uint d = NilEmpty.string_of_uint d) as -> by by destruct d.
    by rewrite Hs.
Qed.

(** The name [main] gives the joined file is not the name of a part. *)
Lemma output_not_part_name (prefix ext : string) (i : Z) :
  "output" +:+ ext ≠ part_name prefix ext i.
Proof.
  unfold part_name. intros E. rewrite <- append_assoc in E. apply append_inj_r in E.
  destruct (to_string_last i) as (s & a & Hs & Ha). rewrite Hs, <- append_assoc in E.
  change "output"%string with ("outpu" +:+ String "t" "")%string in E.
  apply append_last in E. subst a. vm_compute in Ha. discriminate Ha.
Qed.

(** X1. Two different part numbers never give the same file name, so a
    part is not overwritten by a later one. *)
Theorem part_names_distinct (prefix ext : string) (i j : Z) :
  i ≠ j → part_name prefix ext i ≠ part_name prefix ext j.
Proof. intros Hij E. by apply part_name_inj in E. Qed.

Lemma part_names_distinct_witness :
  part_name "p" ".bin" 1 ≠ part_name "p" ".bin" 10.
Proof. apply (part_names_distinct "p" ".bin" 1 10). lia. Defined.

(** ** The binary chunker *)

(** X2. Part [i] of [chunkFile] holds the bytes of the source from offset
    [(i - 1) * T] on, [T] of them or as many as are left, for a chunk size
    [T] of [1] to [STREAMSIZE_MAX] bytes. *)
Theorem binary_parts_are_slices (w : world) (path prefix : string) (T : Z)
    (src : bytes) (fuel : nat) :
  let ext := extension_of path in
  let N := Z.of_nat (length src) / T + 1 in
  files w !! path = Some src →
  1 ≤ T →
  T ≤ STREAMSIZE_MAX →
  (∀ i, 1 ≤ i ≤ N → path ≠ part_name prefix ext i) →
  (∀ i, 1 ≤ i ≤ N → part_name prefix ext i ∉ denied w) →
  N < INT_MAX →
  N < Z.of_nat fuel →
  ∃ w',
    chunkFile fuel w path prefix T = Done w' ∧
    ∀ i, 1 ≤ i ≤ N →
      files w' !! part_name prefix ext i =
        Some (take (Z.to_nat T) (drop (Z.to_nat ((i - 1) * T)) src)).
Proof.
  intros ext N Hsrc HT HTmax Hne Hok Hmax Hfuel.
  destruct (chunkFile_spec prefix T HT w path src fuel)
    as (ps & w' & Hrun & _ & Hnum & Hslice & Hparts & _); try done.
  exists w'. split; [done |]. intros i Hi.
  destruct (lookup_lt_is_Some_2 ps (Z.to_nat (i - 1))) as [p Hp]; [fold N in Hnum; lia |].
  specialize (Hparts _ _ Hp). fold ext in Hparts.
  replace (1 + Z.of_nat (Z.to_nat (i - 1))) with i in Hparts by lia.
  rewrite Hparts, (Hslice _ _ Hp). do 3 f_equal. nia.
Qed.

Lemma binary_parts_are_slices_witness :
  ∃ w',
    chunkFile 10 song_disk "a.bin" "p" 4 = Done w' ∧
    ∀ i, 1 ≤ i ≤ 3 →
      files w' !! part_name "p" ".bin" i =
        Some (take 4 (drop (Z.to_nat ((i - 1) * 4)) (text "ABCDEFGHIJ"))).
Proof.
  apply (binary_parts_are_slices song_disk "a.bin" "p" 4 (text "ABCDEFGHIJ") 10).
  - reflexivity.
  - lia.
  - unfold STREAMSIZE_MAX. lia.
  - names_differ.
  - none_denied.
  - vm_compute. reflexivity.
  - vm_compute. reflexivity.
Defined.

(** X3. Number and sizes of the parts of [chunkFile], for a chunk size [T]
    of [1] to [STREAMSIZE_MAX] bytes: [S / T + 1] parts are created and
    reported; every part but the last holds exactly [T] bytes, the last
    one the [S mod T] bytes that remain. *)
Theorem binary_part_sizes (w : world) (path prefix : string) (T : Z)
    (src : bytes) (fuel : nat) :
  let ext := extension_of path in
  let S := Z.of_nat (length src) in
  let N := S / T + 1 in
  files w !! path = Some src →
  1 ≤ T →
  T ≤ STREAMSIZE_MAX →
  (∀ i, 1 ≤ i ≤ N → path ≠ part_name prefix ext i) →
  (∀ i, 1 ≤ i ≤ N → part_name prefix ext i ∉ denied w) →
  N < INT_MAX →
  N < Z.of_nat fuel →
  ∃ w',
    chunkFile fuel w path prefix T = Done w' ∧
    (∀ i, 1 ≤ i < N →
       ∃ p, files w' !! part_name prefix ext i = Some p ∧ Z.of_nat (length p) = T) ∧
    (∃ p, files w' !! part_name prefix ext N = Some p ∧ Z.of_nat (length p) = S mod T) ∧
    console w' = console w ++ [(Cout, files_created N)].
Proof.
  intros ext S N Hsrc HT HTmax Hne Hok Hmax Hfuel.
  destruct (chunkFile_spec prefix T HT w path src fuel)
    as (ps & w' & Hrun & _ & Hnum & Hslice & Hparts & _ & _ & Hcon); try done.
  fold S N in Hnum. fold ext in Hparts.
  pose proof (Z.div_pos S T ltac:(lia) ltac:(lia)) as Hq.
  pose proof (Z.div_mod S T ltac:(lia)) as Hdm.
  pose proof (Z.mod_pos_bound S T ltac:(lia)) as Hm.
  assert (Hsize : ∀ i, 1 ≤ i ≤ N →
    ∃ p, files w' !! part_name prefix ext i = Some p ∧
         Z.of_nat (length p) = Z.min T (S - (i - 1) * T)).
  { intros i Hi.
    destruct (lookup_lt_is_Some_2 ps (Z.to_nat (i - 1))) as [p Hp]; [lia |].
    exists p. split.
    - specialize (Hparts _ _ Hp).
      by replace (1 + Z.of_nat (Z.to_nat (i - 1))) with i in Hparts by lia.
    - rewrite (Hslice _ _ Hp), length_take, length_drop. fold S in Hdm. subst S. nia. }
  exists w'. split; [done |]. split; [|split; [|done]].
  - intros i Hi. destruct (Hsize i ltac:(lia)) as (p & Hp & Hlen).
    exists p. split; [done |]. rewrite Hlen. subst N. nia.
  - destruct (Hsize N ltac:(lia)) as (p & Hp & Hlen).
    exists p. split; [done |]. rewrite Hlen. subst N. nia.
Qed.

Lemma binary_part_sizes_witness :
  ∃ w',
    chunkFile 10 song_disk "a.bin" "p" 4 = Done w' ∧
    (∀ i, 1 ≤ i < 3 →
       ∃ p, files w' !! part_name "p" ".bin" i = Some p ∧ Z.of_nat (length p) = 4) ∧
    (∃ p, files w' !! part_name "p" ".bin" 3 = Some p ∧ Z.of_nat (length p) = 2) ∧
    console w' = [(Cout, "Binary chunking complete! 3 files created."%string)].
Proof.
  apply (binary_part_sizes song_disk "a.bin" "p" 4 (text "ABCDEFGHIJ") 10).
  - reflexivity.
  - lia.
  - unfold STREAMSIZE_MAX. lia.
  - names_differ.
  - none_denied.
  - vm_compute. reflexivity.
  - vm_compute. reflexivity.
Defined.

(** X4. [chunkFile] writes its parts and nothing else: for a chunk size of
    [1] to [STREAMSIZE_MAX] bytes, the source and every file that is not
    one of the [N] part names are as before. *)
Theorem chunkFile_keeps_other_files (w : world) (path prefix : string) (T : Z)
    (src : bytes) (fuel : nat) :
  let ext := extension_of path in
  let N := Z.of_nat (length src) / T + 1 in
  files w !! path = Some src →
  1 ≤ T →
  T ≤ STREAMSIZE_MAX →
  (∀ i, 1 ≤ i ≤ N → path ≠ part_name prefix ext i) →
  (∀ i, 1 ≤ i ≤ N → part_name prefix ext i ∉ denied w) →
  N < INT_MAX →
  N < Z.of_nat fuel →
  ∃ w',
    chunkFile fuel w path prefix T = Done w' ∧
    files w' !! path = Some src ∧
    ∀ f, (∀ i, 1 ≤ i ≤ N → f ≠ part_name prefix ext i) → files w' !! f = files w !! f.
Proof.
  intros ext N Hsrc HT HTmax Hne Hok Hmax Hfuel.
  destruct (chunkFile_spec prefix T HT w path src fuel)
    as (ps & w' & Hrun & _ & _ & _ & _ & Hother & _); try done.
  exists w'. split; [done |]. split; [|done]. by rewrite Hother.
Qed.

Lemma chunkFile_keeps_other_files_witness :
  ∃ w',
    chunkFile 10 stale_disk "a.bin" "p" 4 = Done w' ∧
    files w' !! "a.bin"%string = Some (text "ABCDEFGHIJ") ∧
    ∀ f, (∀ i, 1 ≤ i ≤ 3 → f ≠ part_name "p" ".bin" i) →
         files w' !! f = files stale_disk !! f.
Proof.
  apply (chunkFile_keeps_other_files stale_disk "a.bin" "p" 4 (text "ABCDEFGHIJ") 10).
  - reflexivity.
  - lia.
  - unfold STREAMSIZE_MAX. lia.
  - names_differ.
  - none_denied.
  - vm_compute. reflexivity.
  - vm_compute. reflexivity.
Defined.

(** With a chunk size of 0 every read succeeds without reaching the end of
    the file, so the loop cannot end in the regular way. *)
Lemma chunkFile_loop_zero (prefix ext : string) (fuel : nat) :
  ∀ (w : world) (s : ifstream) (c : Z) r,
    in_eof s = false → in_fail s = false →
    chunkFile_loop fuel prefix ext 0 w s c ≠ Done r.
Proof.
  induction fuel as [|fuel IH]; intros w s c r Heof Hfail; [done |].
  cbn [chunkFile_loop]. rewrite Heof.
  destruct (ofstream_open w (prefix +:+ to_string c +:+ ext)) as [w1|]; [|by apply IH].
  unfold ifstream_read. rewrite Heof, Hfail. cbn [orb Z.to_nat take length Z.of_nat Z.ltb Z.compare].
  destruct (c =? INT_MAX); [done |]. by apply IH.
Qed.

Lemma chunkFile_zero_stuck (w : world) (path prefix : string)
    (src : bytes) (fuel : nat) :
  files w !! path = Some src →
  chunkFile fuel w path prefix 0 = OutOfFuel ∨
  chunkFile fuel w path prefix 0 = Overflow.
Proof.
  intros Hsrc. unfold chunkFile, ifstream_open. rewrite Hsrc.
  destruct (chunkFile_loop _ _ _ _ _ _ _) as [[w' c]| |] eqn:E; [| by left | by right].
  by apply chunkFile_loop_zero in E.
Qed.

(** X5. A chunk size of 0 never lets [chunkFile] finish: whatever the number
    of iterations, the run has not returned; it is still in the loop, or
    the [int] counter has overflowed (every read of 0 bytes succeeds
    without reaching the end of the file). *)
Theorem chunkFile_zero_chunk_size (w : world) (path prefix : string)
    (src : bytes) (fuel : nat) :
  files w !! path = Some src →
  chunkFile fuel w path prefix 0 = OutOfFuel ∨
  chunkFile fuel w path prefix 0 = Overflow.
Proof. apply chunkFile_zero_stuck. Qed.

Lemma chunkFile_zero_chunk_size_witness :
  chunkFile 100 song_disk "a.bin" "p" 0 = OutOfFuel ∨
  chunkFile 100 song_disk "a.bin" "p" 0 = Overflow.
Proof.
  apply (chunkFile_zero_chunk_size song_disk "a.bin" "p" (text "ABCDEFGHIJ") 100).
  reflexivity.
Defined.

(** X6. A source whose own name is the name of part 1 is destroyed: opening
    the part truncates the file before its first byte is read, so the run
    ends with that one file, empty, and reports one file created.  The
    chunk size is one of [1] to [STREAMSIZE_MAX] bytes. *)
Theorem chunkFile_source_named_as_part (w : world) (path prefix : string) (T : Z)
    (src : bytes) (fuel : nat) :
  files w !! path = Some src →
  1 ≤ T →
  T ≤ STREAMSIZE_MAX →
  path = part_name prefix (extension_of path) 1 →
  path ∉ denied w →
  (2 ≤ fuel)%nat →
  ∃ w',
    chunkFile fuel w path prefix T = Done w' ∧
    files w' = <[path := []]> (files w) ∧
    console w' = console w ++ [(Cout, files_created 1)].
Proof.
  intros Hsrc HT HTmax Hname Hok Hfuel. unfold chunkFile, ifstream_open. rewrite Hsrc.
  destruct fuel as [|[|fuel]]; [lia | lia |]. cbn [chunkFile_loop in_eof].
  change (prefix +:+ to_string 1 +:+ extension_of path)
    with (part_name prefix (extension_of path) 1).
  rewrite <- Hname, ofstream_open_allowed by done.
  set (s := {| in_path := path; in_pos := 0; in_eof := false; in_fail := false |}).
  set (w1 := {| files := <[path := []]> (files w); denied := denied w; console := console w |}).
  assert (Hrest : in_rest w1 s = []).
  { unfold in_rest, content. cbn. by rewrite lookup_insert_eq. }
  unfold ifstream_read. cbn [in_eof in_fail s orb]. rewrite Hrest, take_nil.
  cbn [length].
  replace (Z.of_nat 0 <? T) with true by (symmetry; apply Z.ltb_lt; lia).
  cbn [in_eof]. eexists. split; [reflexivity |]. split; [|done].
  unfold ofstream_write, content. cbn. by rewrite lookup_insert_eq, insert_insert_eq.
Qed.

Lemma chunkFile_source_named_as_part_witness :
  ∃ w',
    chunkFile 2 alias_disk "p1.bin" "p" 4 = Done w' ∧
    files w' = <["p1.bin"%string := []]> (files alias_disk) ∧
    console w' = [(Cout, files_created 1)].
Proof.
  apply (chunkFile_source_named_as_part alias_disk "p1.bin" "p" 4 (text "ABCDEFGHIJ") 2).
  - reflexivity.
  - lia.
  - unfold STREAMSIZE_MAX. lia.
  - reflexivity.
  - none_denied.
  - lia.
Defined.

(** ** The binary joiner *)

(** X7. [joinFile] changes the output file and nothing else: the parts it
    has read stay on disk as they were. *)
Theorem joinFile_keeps_parts (w : world) (prefix out ext : string)
    (ps : list bytes) (fuel : nat) :
  let k := 1 + Z.of_nat (length ps) in
  (∀ (i : nat) p, ps !! i = Some p →
     files w !! part_name prefix ext (1 + Z.of_nat i) = Some p) →
  files w !! part_name prefix ext k = None →
  out ∉ denied w →
  (∀ i, 1 ≤ i ≤ k → out ≠ part_name prefix ext i) →
  k < UINT_MOD →
  k ≤ Z.of_nat fuel →
  ∃ w',
    joinFile fuel w prefix out ext = Done w' ∧
    (∀ f, f ≠ out → files w' !! f = files w !! f) ∧
    (∀ (i : nat) p, ps !! i = Some p →
       files w' !! part_name prefix ext (1 + Z.of_nat i) = Some p).
Proof.
  intros k Hparts Hgap Hok Hout Hmax Hfuel.
  destruct (joinFile_spec prefix out ext ps w fuel) as (w' & Hrun & Hfiles & _);
    try done; [lia |].
  exists w'. split; [done |]. split.
  - intros f Hf. rewrite Hfiles. by apply lookup_insert_ne.
  - intros i p Hp. pose proof (lookup_lt_Some _ _ _ Hp).
    rewrite Hfiles, lookup_insert_ne; [by apply Hparts |]. apply Hout. lia.
Qed.

Lemma joinFile_keeps_parts_witness :
  ∃ w',
    joinFile 5 gap_disk "p" "output.bin" ".bin" = Done w' ∧
    (∀ f, f ≠ "output.bin"%string → files w' !! f = files gap_disk !! f) ∧
    (∀ (i : nat) p, [text "ABCD"] !! i = Some p →
       files w' !! part_name "p" ".bin" (1 + Z.of_nat i) = Some p).
Proof.
  apply (joinFile_keeps_parts gap_disk "p" "output.bin" ".bin" [text "ABCD"] 5).
  - intros [|i] p Hp; [|done]. injection Hp as <-. vm_compute. reflexivity.
  - vm_compute. reflexivity.
  - none_denied.
  - names_differ.
  - vm_compute. reflexivity.
  - vm_compute. discriminate.
Defined.

(** X8. A file left over under the next part name is taken for a part: with
    a stale file [stale] under the name of part [N + 1] (and none under
    [N + 2]), joining after chunking gives the source followed by the
    stale bytes.  The chunk size is one of [1] to [STREAMSIZE_MAX]
    bytes. *)
Theorem stale_part_is_appended (w : world) (path prefix out : string) (T : Z)
    (src stale : bytes) (fuel1 fuel2 : nat) :
  let ext := extension_of path in
  let N := Z.of_nat (length src) / T + 1 in
  files w !! path = Some src →
  1 ≤ T →
  T ≤ STREAMSIZE_MAX →
  (∀ i, 1 ≤ i ≤ N → path ≠ part_name prefix ext i) →
  (∀ i, 1 ≤ i ≤ N → part_name prefix ext i ∉ denied w) →
  files w !! part_name prefix ext (N + 1) = Some stale →
  files w !! part_name prefix ext (N + 2) = None →
  out ∉ denied w →
  (∀ i, 1 ≤ i ≤ N + 2 → out ≠ part_name prefix ext i) →
  N + 1 < INT_MAX →
  N < Z.of_nat fuel1 → N + 1 < Z.of_nat fuel2 →
  ∃ w1 w2,
    chunkFile fuel1 w path prefix T = Done w1 ∧
    joinFile fuel2 w1 prefix out ext = Done w2 ∧
    files w2 !! out = Some (src ++ stale).
Proof.
  intros ext N Hsrc HT HTmax Hne Hok Hstale Hgap Hout Hout' Hmax Hf1 Hf2.
  destruct (chunkFile_spec prefix T HT w path src fuel1)
    as (ps & w1 & Hrun & Hcat & Hnum & _ & Hparts & Hother & Hden & _); try done; [lia |].
  fold ext N in Hnum, Hparts, Hother.
  destruct (joinFile_spec prefix out ext (ps ++ [stale]) w1 fuel2)
    as (w2 & Hjoin & Hfiles & _).
  - intros i p Hp. destruct (decide (i < length ps)%nat) as [Hi|Hi].
    + rewrite lookup_app_l in Hp by done. by apply Hparts.
    + rewrite lookup_app_r in Hp by lia.
      destruct (i - length ps)%nat as [|j] eqn:Hj; [|done]. injection Hp as <-.
      replace (1 + Z.of_nat i) with (N + 1) by lia.
      rewrite Hother; [done |]. intros j Hj' E. apply part_name_inj in E. lia.
  - rewrite length_app. cbn [length].
    replace (1 + Z.of_nat (length ps + 1)) with (N + 2) by lia.
    rewrite Hother; [done |]. intros j Hj' E. apply part_name_inj in E. lia.
  - by rewrite Hden.
  - intros i Hi. rewrite length_app in Hi. cbn [length] in Hi. apply Hout'. lia.
  - rewrite length_app. cbn [length]. unfold UINT_MOD, INT_MAX in *. lia.
  - rewrite length_app. cbn [length]. lia.
  - exists w1, w2. repeat split; try done.
    rewrite Hfiles, lookup_insert_eq, concat_app, Hcat. cbn. by rewrite app_nil_r.
Qed.

Lemma stale_part_is_appended_witness :
  ∃ w1 w2,
    chunkFile 10 stale_disk "a.bin" "p" 4 = Done w1 ∧
    joinFile 10 w1 "p" "output.bin" ".bin" = Done w2 ∧
    files w2 !! "output.bin"%string = Some (text "ABCDEFGHIJ" ++ text "old").
Proof.
  apply (stale_part_is_appended stale_disk "a.bin" "p" "output.bin" 4
           (text "ABCDEFGHIJ") (text "old") 10 10).
  - reflexivity.
  - lia.
  - unfold STREAMSIZE_MAX. lia.
  - names_differ.
  - none_denied.
  - vm_compute. reflexivity.
  - vm_compute. reflexivity.
  - none_denied.
  - names_differ.
  - vm_compute. reflexivity.
  - vm_compute. reflexivity.
  - vm_compute. reflexivity.
Defined.

(** ** The line-oriented chunker *)

(** X10. Every part of [chunkCSV] holds the header and at least one data
    line, the parts hold the data lines in order, and for [n ≥ 1] data
    lines between 1 and [n] parts are created and reported. *)
Theorem csv_every_part_has_data (w : world) (path prefix : string) (T : Z)
    (src header : bytes) (data : list bytes) (fuel : nat) :
  let n := Z.of_nat (length data) in
  files w !! path = Some src →
  lines_of src = header :: data →
  data ≠ [] →
  (∀ i, 1 ≤ i ≤ n → path ≠ part_name prefix ".csv" i) →
  (∀ i, 1 ≤ i ≤ n → part_name prefix ".csv" i ∉ denied w) →
  n < INT_MAX →
  n < Z.of_nat fuel →
  ∃ (w' : world) (gs : list (list bytes)),
    chunkCSV fuel w path prefix T = Done w' ∧
    concat gs = data ∧
    1 ≤ Z.of_nat (length gs) ≤ n ∧
    (∀ (i : nat) g, gs !! i = Some g →
       g ≠ [] ∧
       files w' !! part_name prefix ".csv" (1 + Z.of_nat i) = Some (unlines (header :: g))) ∧
    console w' = console w ++ [(Cout, csv_files_created (Z.of_nat (length gs)))].
Proof.
  intros n Hsrc Hlines Hdata Hne Hok Hmax Hfuel.
  destruct (chunkCSV_spec prefix T w path src header data fuel)
    as (gs & w' & Hrun & Hcat & Hnonempty & Hparts & _ & _ & Hcon & _); try done.
  exists w', gs. repeat split; try done.
  - destruct gs; [by rewrite <- Hcat in Hdata | cbn; lia].
  - subst n. rewrite <- Hcat. pose proof (groups_length gs Hnonempty). lia.
  - eapply (proj1 (Forall_lookup _ _) Hnonempty); eassumption.
  - by apply Hparts.
Qed.

Lemma csv_every_part_has_data_witness :
  ∃ (w' : world) (gs : list (list bytes)),
    chunkCSV 10 table_disk "a.csv" "p" 7 = Done w' ∧
    concat gs = [text "1,a"; text "2,b"; text "3,c"] ∧
    1 ≤ Z.of_nat (length gs) ≤ 3 ∧
    (∀ (i : nat) g, gs !! i = Some g →
       g ≠ [] ∧
       files w' !! part_name "p" ".csv" (1 + Z.of_nat i) =
         Some (unlines (text "id,val" :: g))) ∧
    console w' = [(Cout, csv_files_created (Z.of_nat (length gs)))].
Proof.
  apply (csv_every_part_has_data table_disk "a.csv" "p" 7 table_src
           (text "id,val") [text "1,a"; text "2,b"; text "3,c"] 10).
  - reflexivity.
  - vm_compute. reflexivity.
  - discriminate.
  - names_differ.
  - none_denied.
  - vm_compute. reflexivity.
  - vm_compute. reflexivity.
Defined.

(** X11. The threshold bounds every part that has more than one data line:
    the lengths of its data lines add up to at most [T].  Only a part with
    a single data line can be larger. *)
Theorem csv_parts_respect_threshold (w : world) (path prefix : string) (T : Z)
    (src header : bytes) (data : list bytes) (fuel : nat) :
  let n := Z.of_nat (length data) in
  files w !! path = Some src →
  lines_of src = header :: data →
  Z.of_nat (length src) < ULONG_MOD →
  (∀ i, 1 ≤ i ≤ n → path ≠ part_name prefix ".csv" i) →
  (∀ i, 1 ≤ i ≤ n → part_name prefix ".csv" i ∉ denied w) →
  n < INT_MAX →
  n < Z.of_nat fuel →
  ∃ (w' : world) (gs : list (list bytes)),
    chunkCSV fuel w path prefix T = Done w' ∧
    concat gs = data ∧
    (∀ (i : nat) g, gs !! i = Some g →
       files w' !! part_name prefix ".csv" (1 + Z.of_nat i) = Some (unlines (header :: g))) ∧
    (∀ (i : nat) g, gs !! i = Some g → (2 ≤ length g)%nat → total g ≤ T).
Proof.
  intros n Hsrc Hlines Hsize Hne Hok Hmax Hfuel.
  destruct (chunkCSV_spec prefix T w path src header data fuel)
    as (gs & w' & Hrun & Hcat & _ & Hparts & _ & _ & _ & Hfits); try done.
  pose proof (total_lines_of src) as Htot. rewrite Hlines in Htot. cbn [total] in Htot.
  exists w', gs. repeat split; try done.
  intros i g Hg Hlen.
  assert (Hfit : fits T g).
  { eapply (proj1 (Forall_lookup _ _) (Hfits ltac:(lia))); eassumption. }
  destruct g as [|l1 [|l2 g]]; cbn in Hlen; try lia. exact Hfit.
Qed.

Lemma csv_parts_respect_threshold_witness :
  ∃ (w' : world) (gs : list (list bytes)),
    chunkCSV 10 table_disk "a.csv" "p" 7 = Done w' ∧
    concat gs = [text "1,a"; text "2,b"; text "3,c"] ∧
    (∀ (i : nat) g, gs !! i = Some g →
       files w' !! part_name "p" ".csv" (1 + Z.of_nat i) =
         Some (unlines (text "id,val" :: g))) ∧
    (∀ (i : nat) g, gs !! i = Some g → (2 ≤ length g)%nat → total g ≤ 7).
Proof.
  apply (csv_parts_respect_threshold table_disk "a.csv" "p" 7 table_src
           (text "id,val") [text "1,a"; text "2,b"; text "3,c"] 10).
  - reflexivity.
  - vm_compute. reflexivity.
  - vm_compute. reflexivity.
  - names_differ.
  - none_denied.
  - vm_compute. reflexivity.
  - vm_compute. reflexivity.
Defined.

(** X12. [chunkCSV] writes its parts and nothing else: the source and every
    file that is not one of the part names are as before. *)
Theorem chunkCSV_keeps_other_files (w : world) (path prefix : string) (T : Z)
    (src header : bytes) (data : list bytes) (fuel : nat) :
  let n := Z.of_nat (length data) in
  files w !! path = Some src →
  lines_of src = header :: data →
  (∀ i, 1 ≤ i ≤ n → path ≠ part_name prefix ".csv" i) →
  (∀ i, 1 ≤ i ≤ n → part_name prefix ".csv" i ∉ denied w) →
  n < INT_MAX →
  n < Z.of_nat fuel →
  ∃ w',
    chunkCSV fuel w path prefix T = Done w' ∧
    files w' !! path = Some src ∧
    ∀ f, (∀ i, 1 ≤ i ≤ n → f ≠ part_name prefix ".csv" i) → files w' !! f = files w !! f.
Proof.
  intros n Hsrc Hlines Hne Hok Hmax Hfuel.
  destruct (chunkCSV_spec prefix T w path src header data fuel)
    as (gs & w' & Hrun & Hcat & Hnonempty & _ & Hother & _); try done.
  assert (Hlen : Z.of_nat (length gs) ≤ n).
  { subst n. rewrite <- Hcat. pose proof (groups_length gs Hnonempty). lia. }
  exists w'. split; [done |]. split.
  - rewrite Hother; [done |]. intros i Hi. apply Hne. lia.
  - intros f Hf. apply Hother. intros i Hi. apply Hf. lia.
Qed.

Lemma chunkCSV_keeps_other_files_witness :
  ∃ w',
    chunkCSV 10 table_disk "a.csv" "p" 3 = Done w' ∧
    files w' !! "a.csv"%string = Some table_src ∧
    ∀ f, (∀ i, 1 ≤ i ≤ 3 → f ≠ part_name "p" ".csv" i) →
         files w' !! f = files table_disk !! f.
Proof.
  apply (chunkCSV_keeps_other_files table_disk "a.csv" "p" 3 table_src
           (text "id,val") [text "1,a"; text "2,b"; text "3,c"] 10).
  - reflexivity.
  - vm_compute. reflexivity.
  - names_differ.
  - none_denied.
  - vm_compute. reflexivity.
  - vm_compute. reflexivity.
Defined.

(** While the open part has room for all the lines that are left, they are
    all appended to it. *)
Lemma chunkCSV_loop_appends (prefix : string) (T : Z) (header : bytes) (ls : list bytes) :
  ∀ (w : world) (s : ifstream) (o : string) (cs c : Z) (fuel : nat),
    lines_of (in_rest w s) = ls → ready w s →
    is_Some (files w !! o) → in_path s ≠ o →
    0 < cs → cs + total ls ≤ T → T < ULONG_MOD →
    (length ls < fuel)%nat →
    chunkCSV_loop fuel prefix T header w s (Some o) cs c =
      Done ({| files := <[o := content w o ++ unlines ls]> (files w);
               denied := denied w; console := console w |}, LinesDone c).
Proof.
  induction ls as [|l ls IH]; intros w s o cs c fuel Hls Hready [b Hb] Hne Hcs Hroom HT Hfuel.
  all: destruct fuel as [|fuel]; [cbn in Hfuel; lia |].
  - rewrite chunkCSV_loop_end by by apply getline_None.
    cbn [unlines map concat]. rewrite (content_Some _ _ _ Hb), app_nil_r, insert_id by done.
    by destruct w.
  - destruct (getline_Some w s l ls Hready Hls) as (s' & Hget & Hpath & Hready' & Hls').
    cbn [total] in Hroom. pose proof (total_nonneg ls).
    rewrite (chunkCSV_loop_append _ _ _ _ _ _ _ _ _ _ _ Hget).
    2:{ apply orb_false_iff. split; [apply Z.eqb_neq; lia |].
        apply Z.ltb_ge. rewrite Z.mod_small; lia. }
    cbn [output_line]. rewrite Z.mod_small by lia.
    set (w1 := ofstream_write w o (l ++ [LF])).
    assert (Hsrc : files w1 !! in_path s' = files w !! in_path s').
    { cbn. apply lookup_insert_ne. by rewrite Hpath. }
    rewrite (IH w1 s' o); try done.
    + do 2 f_equal. unfold content at 1. cbn. rewrite lookup_insert_eq, insert_insert_eq.
      cbn. unfold unlines. cbn. by rewrite <- !app_assoc.
    + by rewrite (in_rest_eq _ _ _ Hsrc).
    + by apply (ready_eq w).
    + cbn. rewrite lookup_insert_eq. eauto.
    + by rewrite Hpath.
    + lia.
    + lia.
    + cbn in Hfuel. lia.
Qed.

(** X13. A table whose data lines fit the threshold together, and whose
    first data line is not empty, goes into a single part: the header
    followed by all data lines. *)
Theorem csv_small_table_single_part (w : world) (path prefix : string) (T : Z)
    (src header l1 : bytes) (rest : list bytes) (fuel : nat) :
  let part1 := part_name prefix ".csv" 1 in
  files w !! path = Some src →
  lines_of src = header :: l1 :: rest →
  l1 ≠ [] →
  total (l1 :: rest) ≤ T →
  T < ULONG_MOD →
  path ≠ part1 →
  part1 ∉ denied w →
  (length rest + 1 < fuel)%nat →
  ∃ w',
    chunkCSV fuel w path prefix T = Done w' ∧
    files w' = <[part1 := unlines (header :: l1 :: rest)]> (files w) ∧
    console w' = console w ++ [(Cout, "CSV chunking complete! 1 files created."%string)].
Proof.
  intros part1 Hsrc Hlines Hl1 Hroom HT Hne Hok Hfuel.
  unfold chunkCSV, ifstream_open. rewrite Hsrc.
  set (s := {| in_path := path; in_pos := 0; in_eof := false; in_fail := false |}).
  assert (Hrest : in_rest w s = src).
  { unfold in_rest. cbn. by rewrite (content_Some _ _ _ Hsrc). }
  assert (Hready : ready w s) by done.
  rewrite <- Hrest in Hlines.
  destruct (getline_Some w s header (l1 :: rest) Hready Hlines)
    as (s1 & -> & Hpath1 & Hready1 & Hls1).
  destruct (getline_Some w s1 l1 rest Hready1 Hls1) as (s2 & Hget & Hpath2 & Hready2 & Hls2).
  destruct fuel as [|fuel]; [lia |].
  rewrite (chunkCSV_loop_new _ _ _ _ _ _ _ _ _ _ _ Hget); try done.
  fold part1. cbn [total] in Hroom. pose proof (total_nonneg rest).
  assert (Hlen : 0 < Z.of_nat (length l1)) by (destruct l1; [done | cbn; lia]).
  rewrite Z.mod_small by lia.
  set (w3 := {| files := <[part1 := unlines [header; l1]]> (files w);
                denied := denied w; console := console w |}).
  assert (Hp : in_path s2 ≠ part1) by (by rewrite Hpath2, Hpath1).
  assert (Hsrc3 : files w3 !! in_path s2 = files w !! in_path s2).
  { cbn. by apply lookup_insert_ne. }
  rewrite (chunkCSV_loop_appends prefix T header rest w3 s2 part1); try done.
  - eexists. split; [reflexivity |]. split; [|done].
    unfold content. cbn. rewrite lookup_insert_eq, insert_insert_eq. cbn.
    f_equal. unfold unlines. cbn. by rewrite <- !app_assoc.
  - by rewrite (in_rest_eq _ _ _ Hsrc3).
  - by apply (ready_eq w).
  - cbn. rewrite lookup_insert_eq. eauto.
  - lia.
Qed.

Lemma csv_small_table_single_part_witness :
  ∃ w',
    chunkCSV 10 table_disk "a.csv" "p" 100 = Done w' ∧
    files w' = <["p1.csv"%string := table_src]> (files table_disk) ∧
    console w' = [(Cout, "CSV chunking complete! 1 files created."%string)].
Proof.
  apply (csv_small_table_single_part table_disk "a.csv" "p" 100 table_src
           (text "id,val") (text "1,a") [text "2,b"; text "3,c"] 10).
  - reflexivity.
  - vm_compute. reflexivity.
  - discriminate.
  - vm_compute. discriminate.
  - vm_compute. reflexivity.
  - vm_compute. discriminate.
  - none_denied.
  - vm_compute. lia.
Defined.

(** The line loop against [csv_split]: the lines for the open part and the
    groups of the new parts are the ones the function gives. *)
Lemma chunkCSV_loop_groups (prefix : string) (T : Z) (header : bytes) (ls : list bytes) :
  ∀ (w : world) (s : ifstream) (out : option string) (cs c : Z) (fuel : nat),
    lines_of (in_rest w s) = ls →
    ready w s →
    (∀ i, c ≤ i < c + Z.of_nat (length ls) → in_path s ≠ part_name prefix ".csv" i) →
    (∀ i, c ≤ i < c + Z.of_nat (length ls) → part_name prefix ".csv" i ∉ denied w) →
    (∀ o, out = Some o →
       is_Some (files w !! o) ∧ in_path s ≠ o ∧
       ∀ i, c ≤ i < c + Z.of_nat (length ls) → o ≠ part_name prefix ".csv" i) →
    (out = None → cs = 0) →
    c + Z.of_nat (length ls) ≤ INT_MAX →
    (length ls < fuel)%nat →
    let g0 := (csv_split T cs ls).1 in
    let gs := (csv_split T cs ls).2 in
    ∃ w' : world,
      chunkCSV_loop fuel prefix T header w s out cs c =
        Done (w', LinesDone (c + Z.of_nat (length gs))) ∧
      (length gs ≤ length ls)%nat ∧
      (∀ o, out = Some o → files w' !! o = Some (content w o ++ unlines g0)) ∧
      (∀ (i : nat) g, gs !! i = Some g →
         files w' !! part_name prefix ".csv" (c + Z.of_nat i) = Some (unlines (header :: g))) ∧
      (∀ f, out ≠ Some f →
            (∀ i, c ≤ i < c + Z.of_nat (length gs) → f ≠ part_name prefix ".csv" i) →
            files w' !! f = files w !! f) ∧
      console w' = console w.
Proof.
  induction ls as [|l ls IH];
    intros w s out cs c fuel Hls Hready Hne Hok Hout Hcs0 Hmax Hfuel.
  all: destruct fuel as [|fuel]; [cbn in Hfuel; lia |].
  - rewrite chunkCSV_loop_end by by apply getline_None.
    exists w. cbn. rewrite Z.add_0_r. repeat split; try done.
    intros o Ho. destruct (Hout o Ho) as [[b Hb] _].
    by rewrite (content_Some _ _ _ Hb), app_nil_r.
  - destruct (getline_Some w s l ls Hready Hls) as (s' & Hget & Hpath & Hready' & Hls').
    cbn [length] in *. cbn [csv_split]. cbv zeta.
    destruct ((cs =? 0) || (T <? (cs + Z.of_nat (length l)) mod ULONG_MOD)) eqn:Hnew.
    + rewrite (chunkCSV_loop_new _ _ _ _ _ _ _ _ _ _ _ Hget Hnew)
        by (try (apply Hok; lia); lia).
      set (w3 := {| files := <[part_name prefix ".csv" c := unlines [header; l]]> (files w);
                    denied := denied w; console := console w |}).
      assert (Hw3 : ∀ f, f ≠ part_name prefix ".csv" c → files w3 !! f = files w !! f).
      { intros f Hf. cbn. by apply lookup_insert_ne. }
      assert (Hsrc : files w3 !! in_path s' = files w !! in_path s').
      { apply Hw3. rewrite Hpath. apply Hne. lia. }
      destruct (IH w3 s' (Some (part_name prefix ".csv" c))
                  (Z.of_nat (length l) mod ULONG_MOD) (c + 1) fuel)
        as (w' & Hrun & Hlen & Hopen & Hparts & Hother & Hcon).
      { by rewrite (in_rest_eq _ _ _ Hsrc). }
      { by apply (ready_eq w). }
      { intros i Hi. rewrite Hpath. apply Hne. lia. }
      { intros i Hi. apply Hok. lia. }
      { intros o [= <-]. split; [cbn; rewrite lookup_insert_eq; eauto |].
        split; [rewrite Hpath; apply Hne; lia |].
        intros i Hi E. apply part_name_inj in E. lia. }
      { done. }
      { lia. } { lia. }
      change (0 + Z.of_nat (length l)) with (Z.of_nat (length l)).
      destruct (csv_split T (Z.of_nat (length l) mod ULONG_MOD) ls) as [g0 gs] eqn:Hsplit.
      cbn [fst snd length] in *.
      exists w'. split; [rewrite Hrun; do 3 f_equal; lia |].
      split; [lia |].
      split.
      { intros o Ho. destruct (Hout o Ho) as ([b Hb] & _ & Ho').
        rewrite Hother, Hw3, Hb, (content_Some _ _ _ Hb), app_nil_r; try done.
        - apply Ho'. lia.
        - intros [= E]. symmetry in E. revert E. apply Ho'. lia.
        - intros i Hi. apply Ho'. lia. }
      split.
      { intros [|i] g Hg.
        - injection Hg as <-. rewrite Z.add_0_r, (Hopen _ eq_refl).
          unfold content. cbn. rewrite lookup_insert_eq. cbn.
          f_equal. unfold unlines. cbn. by rewrite app_nil_r, <- !app_assoc.
        - replace (c + Z.of_nat (S i)) with (c + 1 + Z.of_nat i) by lia. by apply Hparts. }
      split; [|done].
      intros f Hf Hfi. rewrite Hother, Hw3; try done.
      * apply Hfi. lia.
      * intros [= E]. symmetry in E. revert E. apply Hfi. lia.
      * intros i Hi. apply Hfi. lia.
    + pose proof Hnew as Hnew'. apply orb_false_iff in Hnew' as [Hcs' _].
      apply Z.eqb_neq in Hcs'.
      destruct out as [o|]; [|by specialize (Hcs0 eq_refl)].
      destruct (Hout o eq_refl) as ([b Hb] & Hpo & Ho').
      rewrite (chunkCSV_loop_append _ _ _ _ _ _ _ _ _ _ _ Hget Hnew).
      cbn [output_line].
      set (w1 := ofstream_write w o (l ++ [LF])).
      assert (Hw1 : ∀ f, f ≠ o → files w1 !! f = files w !! f).
      { intros f Hf. cbn. by apply lookup_insert_ne. }
      assert (Hsrc : files w1 !! in_path s' = files w !! in_path s').
      { apply Hw1. by rewrite Hpath. }
      destruct (IH w1 s' (Some o) ((cs + Z.of_nat (length l)) mod ULONG_MOD) c fuel)
        as (w' & Hrun & Hlen & Hopen & Hparts & Hother & Hcon).
      { by rewrite (in_rest_eq _ _ _ Hsrc). }
      { by apply (ready_eq w). }
      { intros i Hi. rewrite Hpath. apply Hne. lia. }
      { intros i Hi. apply Hok. lia. }
      { intros o' [= <-]. split; [cbn; rewrite lookup_insert_eq; eauto |].
        split; [by rewrite Hpath |]. intros i Hi. apply Ho'. lia. }
      { done. }
      { lia. } { lia. }
      destruct (csv_split T ((cs + Z.of_nat (length l)) mod ULONG_MOD) ls)
        as [g0 gs] eqn:Hsplit.
      cbn [fst snd] in *.
      exists w'. split; [done |]. split; [lia |].
      split.
      { intros o' [= <-]. rewrite (Hopen _ eq_refl). f_equal.
        unfold content at 1. cbn. rewrite lookup_insert_eq. cbn.
        unfold unlines. cbn. by rewrite <- !app_assoc. }
      split; [done |]. split; [|done].
      intros f Hf Hfi. rewrite Hother, Hw1; try done. congruence.
Qed.

(** The groups hold all lines, in order. *)
Lemma csv_split_concat (T : Z) (ls : list bytes) :
  ∀ cs, (csv_split T cs ls).1 ++ concat (csv_split T cs ls).2 = ls.
Proof.
  induction ls as [|l ls IH]; intros cs; [done |]. cbn [csv_split]. cbv zeta.
  destruct ((cs =? 0) || _).
  - specialize (IH ((0 + Z.of_nat (length l)) mod ULONG_MOD)).
    destruct (csv_split T _ ls) as [g0 gs]. cbn in *. by rewrite IH.
  - specialize (IH ((cs + Z.of_nat (length l)) mod ULONG_MOD)).
    destruct (csv_split T _ ls) as [g0 gs]. cbn in *. by rewrite IH.
Qed.

(** A part is closed only when it has to be: the next line would take the
    accumulated size over the threshold, or that size is still 0. *)
Lemma csv_split_maximal (T : Z) (ls : list bytes) :
  ∀ cs, 0 ≤ cs → cs + total ls < ULONG_MOD →
    let g0 := (csv_split T cs ls).1 in
    let gs := (csv_split T cs ls).2 in
    (∀ l g, gs !! 0%nat = Some (l :: g) →
       cs + total g0 = 0 ∨ T < cs + total g0 + Z.of_nat (length l)) ∧
    (∀ (i : nat) g l' g', gs !! i = Some g → gs !! S i = Some (l' :: g') →
       total g = 0 ∨ T < total g + Z.of_nat (length l')).
Proof.
  induction ls as [|l ls IH]; intros cs Hcs Hnw; [done |].
  cbn [csv_split total] in *. cbv zeta. pose proof (total_nonneg ls).
  destruct ((cs =? 0) || (T <? (cs + Z.of_nat (length l)) mod ULONG_MOD)) eqn:Hnew.
  - rewrite Z.mod_small in Hnew by lia.
    change (0 + Z.of_nat (length l)) with (Z.of_nat (length l)).
    rewrite Z.mod_small by lia.
    specialize (IH (Z.of_nat (length l)) ltac:(lia) ltac:(lia)).
    destruct (csv_split T (Z.of_nat (length l)) ls) as [g0 gs]. cbn [fst snd] in *.
    destruct IH as [IH1 IH2]. split.
    + intros l0 g [= -> ->]. cbn [total].
      apply orb_true_iff in Hnew as [Hz|Hlt]; [left | right]; lia.
    + intros [|i] g l' g' Hg Hg'.
      * injection Hg as <-. cbn [total]. by apply (IH1 l' g').
      * by apply (IH2 i g l' g').
  - rewrite Z.mod_small by lia.
    specialize (IH (cs + Z.of_nat (length l)) ltac:(lia) ltac:(lia)).
    destruct (csv_split T (cs + Z.of_nat (length l)) ls) as [g0 gs]. cbn [fst snd] in *.
    destruct IH as [IH1 IH2]. split; [|done].
    intros l0 g Hg. cbn [total]. specialize (IH1 l0 g Hg). lia.
Qed.

(** [chunkCSV] against [csv_groups]. *)
Lemma chunkCSV_run_groups (w : world) (path prefix : string) (T : Z)
    (src header : bytes) (data : list bytes) (fuel : nat) :
  let n := Z.of_nat (length data) in
  let gs := csv_groups T data in
  files w !! path = Some src →
  lines_of src = header :: data →
  (∀ i, 1 ≤ i ≤ n → path ≠ part_name prefix ".csv" i) →
  (∀ i, 1 ≤ i ≤ n → part_name prefix ".csv" i ∉ denied w) →
  n < INT_MAX →
  n < Z.of_nat fuel →
  ∃ w',
    chunkCSV fuel w path prefix T = Done w' ∧
    concat gs = data ∧
    (∀ (i : nat) g, gs !! i = Some g →
       files w' !! part_name prefix ".csv" (1 + Z.of_nat i) = Some (unlines (header :: g))) ∧
    (∀ f, (∀ i, 1 ≤ i ≤ Z.of_nat (length gs) → f ≠ part_name prefix ".csv" i) →
          files w' !! f = files w !! f) ∧
    console w' = console w ++ [(Cout, csv_files_created (Z.of_nat (length gs)))].
Proof.
  intros n gs Hsrc Hlines Hne Hok Hmax Hfuel. unfold chunkCSV, ifstream_open. rewrite Hsrc.
  set (s := {| in_path := path; in_pos := 0; in_eof := false; in_fail := false |}).
  assert (Hrest : in_rest w s = src).
  { unfold in_rest. cbn. by rewrite (content_Some _ _ _ Hsrc). }
  assert (Hready : ready w s) by done.
  rewrite <- Hrest in Hlines.
  destruct (getline_Some w s header data Hready Hlines)
    as (s' & Hget & Hpath & Hready' & Hls').
  rewrite Hget.
  destruct (chunkCSV_loop_groups prefix T header data w s' None 0 1 fuel)
    as (w' & Hrun & Hlen & _ & Hparts & Hother & Hcon); try done.
  { intros i Hi. rewrite Hpath. apply Hne. subst n. cbn [in_path s]. lia. }
  { intros i Hi. apply Hok. subst n. lia. }
  { subst n. lia. }
  { subst n. lia. }
  fold (csv_groups T data) in Hrun, Hlen, Hparts, Hother. fold gs in Hrun, Hlen, Hparts, Hother.
  rewrite Hrun. exists (print w' Cout (csv_files_created (Z.of_nat (length gs)))).
  repeat split; try done.
  - unfold csv_files_created.
    by replace (1 + Z.of_nat (length gs) - 1) with (Z.of_nat (length gs)) by lia.
  - pose proof (csv_split_concat T data 0) as Hcat.
    assert ((csv_split T 0 data).1 = []) as Hg0.
    { destruct data as [|l data]; [done |]. cbn. by destruct (csv_split T _ data). }
    by rewrite Hg0 in Hcat.
  - intros f Hf. apply Hother; [done |]. intros i Hi. apply Hf. lia.
  - cbn. by rewrite Hcon.
Qed.

(** The iteration that cannot open its part ends the loop with the error
    message. *)
Lemma chunkCSV_loop_fail (prefix : string) (T : Z) (header : bytes) (fuel : nat)
    (w : world) (s s' : ifstream) (out : option string) (cs c : Z) (line : bytes) :
  getline w s = (Some line, s') →
  (cs =? 0) || (T <? (cs + Z.of_nat (length line)) mod ULONG_MOD) = true →
  part_name prefix ".csv" c ∈ denied w →
  chunkCSV_loop (S fuel) prefix T header w s out cs c =
    Done (print w Cerr "Error: Unable to open chunk file for writing.", PartOpenFailed).
Proof.
  intros Hget Hnew Hden. cbn [chunkCSV_loop]. rewrite Hget, Hnew.
  change (prefix +:+ to_string c +:+ ".csv") with (part_name prefix ".csv" c).
  by rewrite ofstream_open_denied.
Qed.

(** The line loop when part [k] cannot be opened: the parts before [k] are
    written in full, then the loop returns with the error message. *)
Lemma chunkCSV_loop_stops (prefix : string) (T : Z) (header : bytes) (ls : list bytes) :
  ∀ (w : world) (s : ifstream) (out : option string) (cs c k : Z) (fuel : nat),
    lines_of (in_rest w s) = ls →
    ready w s →
    let g0 := (csv_split T cs ls).1 in
    let gs := (csv_split T cs ls).2 in
    c ≤ k < c + Z.of_nat (length gs) →
    k < INT_MAX →
    part_name prefix ".csv" k ∈ denied w →
    (∀ i, c ≤ i < k → part_name prefix ".csv" i ∉ denied w) →
    (∀ i, c ≤ i < k → in_path s ≠ part_name prefix ".csv" i) →
    (∀ o, out = Some o →
       is_Some (files w !! o) ∧ in_path s ≠ o ∧
       ∀ i, c ≤ i < k → o ≠ part_name prefix ".csv" i) →
    (out = None → cs = 0) →
    (length ls < fuel)%nat →
    ∃ w' : world,
      chunkCSV_loop fuel prefix T header w s out cs c = Done (w', PartOpenFailed) ∧
      (∀ o, out = Some o → files w' !! o = Some (content w o ++ unlines g0)) ∧
      (∀ (i : nat) g, gs !! i = Some g → c + Z.of_nat i < k →
         files w' !! part_name prefix ".csv" (c + Z.of_nat i) = Some (unlines (header :: g))) ∧
      (∀ f, out ≠ Some f → (∀ i, c ≤ i < k → f ≠ part_name prefix ".csv" i) →
            files w' !! f = files w !! f) ∧
      console w' =
        console w ++ [(Cerr, "Error: Unable to open chunk file for writing."%string)].
Proof.
  induction ls as [|l ls IH];
    intros w s out cs c k fuel Hls Hready g0 gs Hk Hmax Hden Hok Hne Hout Hcs0 Hfuel.
  { subst gs. cbn in Hk. lia. }
  destruct fuel as [|fuel]; [cbn in Hfuel; lia |].
  destruct (getline_Some w s l ls Hready Hls) as (s' & Hget & Hpath & Hready' & Hls').
  subst g0 gs. cbn [length] in *. cbn [csv_split] in *. cbv zeta in *.
  destruct ((cs =? 0) || (T <? (cs + Z.of_nat (length l)) mod ULONG_MOD)) eqn:Hnew.
  - change (0 + Z.of_nat (length l)) with (Z.of_nat (length l)) in *.
    destruct (decide (c = k)) as [->|Hck].
    + (* this is the part that cannot be opened *)
      rewrite (chunkCSV_loop_fail _ _ _ _ _ _ _ _ _ _ _ Hget Hnew Hden).
      eexists. split; [reflexivity |].
      destruct (csv_split T (Z.of_nat (length l) mod ULONG_MOD) ls) as [g0 gs].
      cbn [fst snd print files console]. repeat split; try done.
      * intros o Ho. destruct (Hout o Ho) as [[b Hb] _].
        by rewrite Hb, (content_Some _ _ _ Hb), app_nil_r.
      * intros i g _ Hi. lia.
    + rewrite (chunkCSV_loop_new _ _ _ _ _ _ _ _ _ _ _ Hget Hnew)
        by (try (apply Hok; lia); lia).
      set (w3 := {| files := <[part_name prefix ".csv" c := unlines [header; l]]> (files w);
                    denied := denied w; console := console w |}).
      assert (Hw3 : ∀ f, f ≠ part_name prefix ".csv" c → files w3 !! f = files w !! f).
      { intros f Hf. cbn. by apply lookup_insert_ne. }
      assert (Hsrc : files w3 !! in_path s' = files w !! in_path s').
      { apply Hw3. rewrite Hpath. apply Hne. lia. }
      destruct (csv_split T (Z.of_nat (length l) mod ULONG_MOD) ls) as [g0 gs] eqn:Hsplit.
      cbn [fst snd length] in *.
      destruct (IH w3 s' (Some (part_name prefix ".csv" c))
                  (Z.of_nat (length l) mod ULONG_MOD) (c + 1) k fuel)
        as (w' & Hrun & Hopen & Hparts & Hother & Hcon).
      { by rewrite (in_rest_eq _ _ _ Hsrc). }
      { by apply (ready_eq w). }
      { rewrite Hsplit. cbn [snd]. lia. }
      { done. } { done. }
      { intros i Hi. apply Hok. lia. }
      { intros i Hi. rewrite Hpath. apply Hne. lia. }
      { intros o [= <-]. split; [cbn; rewrite lookup_insert_eq; eauto |].
        split; [rewrite Hpath; apply Hne; lia |].
        intros i Hi E. apply part_name_inj in E. lia. }
      { done. }
      { lia. }
      rewrite Hsplit in Hopen, Hparts. cbn [fst snd] in Hopen, Hparts.
      exists w'. split; [done |].
      split.
      { intros o Ho. destruct (Hout o Ho) as ([b Hb] & _ & Ho').
        rewrite Hother, Hw3, Hb, (content_Some _ _ _ Hb), app_nil_r; try done.
        - apply Ho'. lia.
        - intros [= E]. symmetry in E. revert E. apply Ho'. lia.
        - intros i Hi. apply Ho'. lia. }
      split.
      { intros [|i] g Hg Hi.
        - injection Hg as <-. rewrite Z.add_0_r, (Hopen _ eq_refl).
          unfold content. cbn. rewrite lookup_insert_eq. cbn.
          f_equal. unfold unlines. cbn. by rewrite app_nil_r, <- !app_assoc.
        - replace (c + Z.of_nat (S i)) with (c + 1 + Z.of_nat i) by lia.
          apply Hparts; [done | lia]. }
      split; [|done].
      intros f Hf Hfi. rewrite Hother, Hw3; try done.
      * apply Hfi. lia.
      * intros [= E]. symmetry in E. revert E. apply Hfi. lia.
      * intros i Hi. apply Hfi. lia.
  - pose proof Hnew as Hnew'. apply orb_false_iff in Hnew' as [Hcs' _].
    apply Z.eqb_neq in Hcs'.
    destruct out as [o|]; [|by specialize (Hcs0 eq_refl)].
    destruct (Hout o eq_refl) as ([b Hb] & Hpo & Ho').
    rewrite (chunkCSV_loop_append _ _ _ _ _ _ _ _ _ _ _ Hget Hnew).
    cbn [output_line].
    set (w1 := ofstream_write w o (l ++ [LF])).
    assert (Hw1 : ∀ f, f ≠ o → files w1 !! f = files w !! f).
    { intros f Hf. cbn. by apply lookup_insert_ne. }
    assert (Hsrc : files w1 !! in_path s' = files w !! in_path s').
    { apply Hw1. by rewrite Hpath. }
    destruct (csv_split T ((cs + Z.of_nat (length l)) mod ULONG_MOD) ls)
      as [g0 gs] eqn:Hsplit.
    cbn [fst snd] in *.
    destruct (IH w1 s' (Some o) ((cs + Z.of_nat (length l)) mod ULONG_MOD) c k fuel)
      as (w' & Hrun & Hopen & Hparts & Hother & Hcon).
    { by rewrite (in_rest_eq _ _ _ Hsrc). }
    { by apply (ready_eq w). }
    { rewrite Hsplit. cbn [snd]. lia. }
    { done. } { done. }
    { done. }
    { intros i Hi. rewrite Hpath. by apply Hne. }
    { intros o' [= <-]. split; [cbn; rewrite lookup_insert_eq; eauto |].
      split; [by rewrite Hpath | done]. }
    { done. }
    { lia. }
    rewrite Hsplit in Hopen, Hparts. cbn [fst snd] in Hopen, Hparts.
    exists w'. split; [done |].
    split.
    { intros o' [= <-]. rewrite (Hopen _ eq_refl). f_equal.
      unfold content at 1. cbn. rewrite lookup_insert_eq. cbn.
      unfold unlines. cbn. by rewrite <- !app_assoc. }
    split; [done |]. split; [|done].
    intros f Hf Hfi. rewrite Hother, Hw1; try done. congruence.
Qed.

(** X9. When part [k] cannot be opened for writing, [chunkCSV] says so on
    [cerr] and returns at once, without the message of completion.  The
    parts before [k] have been written in full and are left on disk; no
    other file has changed. *)
Theorem chunkCSV_part_denied_stops (w : world) (path prefix : string) (T : Z)
    (src header : bytes) (data : list bytes) (k : Z) (fuel : nat) :
  let gs := csv_groups T data in
  files w !! path = Some src →
  lines_of src = header :: data →
  1 ≤ k ≤ Z.of_nat (length gs) →
  k < INT_MAX →
  part_name prefix ".csv" k ∈ denied w →
  (∀ i, 1 ≤ i < k → part_name prefix ".csv" i ∉ denied w) →
  (∀ i, 1 ≤ i < k → path ≠ part_name prefix ".csv" i) →
  (length data < fuel)%nat →
  ∃ w',
    chunkCSV fuel w path prefix T = Done w' ∧
    (∀ (i : nat) g, gs !! i = Some g → 1 + Z.of_nat i < k →
       files w' !! part_name prefix ".csv" (1 + Z.of_nat i) = Some (unlines (header :: g))) ∧
    (∀ f, (∀ i, 1 ≤ i < k → f ≠ part_name prefix ".csv" i) → files w' !! f = files w !! f) ∧
    console w' =
      console w ++ [(Cerr, "Error: Unable to open chunk file for writing."%string)].
Proof.
  intros gs Hsrc Hlines Hk Hmax Hden Hok Hne Hfuel. unfold chunkCSV, ifstream_open.
  rewrite Hsrc.
  set (s := {| in_path := path; in_pos := 0; in_eof := false; in_fail := false |}).
  assert (Hrest : in_rest w s = src).
  { unfold in_rest. cbn. by rewrite (content_Some _ _ _ Hsrc). }
  assert (Hready : ready w s) by done.
  rewrite <- Hrest in Hlines.
  destruct (getline_Some w s header data Hready Hlines)
    as (s' & Hget & Hpath & Hready' & Hls').
  rewrite Hget.
  destruct (chunkCSV_loop_stops prefix T header data w s' None 0 1 k fuel)
    as (w' & Hrun & _ & Hparts & Hother & Hcon); try done.
  { fold (csv_groups T data). fold gs. lia. }
  { intros i Hi. rewrite Hpath. by apply Hne. }
  rewrite Hrun. exists w'. repeat split; try done.
  intros f Hf. by apply Hother.
Qed.

Lemma chunkCSV_part_denied_stops_witness :
  ∃ w',
    chunkCSV 5 csv_second_locked_disk "a.csv" "p" 3 = Done w' ∧
    (∀ (i : nat) g, [[text "1,a"]; [text "2,b"]; [text "3,c"]] !! i = Some g →
       1 + Z.of_nat i < 2 →
       files w' !! part_name "p" ".csv" (1 + Z.of_nat i) =
         Some (unlines (text "id,val" :: g))) ∧
    (∀ f, (∀ i, 1 ≤ i < 2 → f ≠ part_name "p" ".csv" i) →
          files w' !! f = files csv_second_locked_disk !! f) ∧
    console w' = [(Cerr, "Error: Unable to open chunk file for writing."%string)].
Proof.
  apply (chunkCSV_part_denied_stops csv_second_locked_disk "a.csv" "p" 3 table_src
           (text "id,val") [text "1,a"; text "2,b"; text "3,c"] 2 5).
  - reflexivity.
  - vm_compute. reflexivity.
  - vm_compute. split; discriminate.
  - vm_compute. reflexivity.
  - vm_compute. reflexivity.
  - intros i Hi. replace i with 1 by lia. intros H. vm_compute in H. discriminate H.
  - names_differ.
  - vm_compute. lia.
Defined.

(** X14. The parts of [chunkCSV] are exactly the groups of [csv_groups]:
    part [i] holds the header and group [i], the number of groups is
    reported, and the groups together are the data lines. *)
Theorem chunkCSV_parts_are_groups (w : world) (path prefix : string) (T : Z)
    (src header : bytes) (data : list bytes) (fuel : nat) :
  let n := Z.of_nat (length data) in
  let gs := csv_groups T data in
  files w !! path = Some src →
  lines_of src = header :: data →
  (∀ i, 1 ≤ i ≤ n → path ≠ part_name prefix ".csv" i) →
  (∀ i, 1 ≤ i ≤ n → part_name prefix ".csv" i ∉ denied w) →
  n < INT_MAX →
  n < Z.of_nat fuel →
  ∃ w',
    chunkCSV fuel w path prefix T = Done w' ∧
    concat gs = data ∧
    (∀ (i : nat) g, gs !! i = Some g →
       files w' !! part_name prefix ".csv" (1 + Z.of_nat i) = Some (unlines (header :: g))) ∧
    (∀ f, (∀ i, 1 ≤ i ≤ Z.of_nat (length gs) → f ≠ part_name prefix ".csv" i) →
          files w' !! f = files w !! f) ∧
    console w' = console w ++ [(Cout, csv_files_created (Z.of_nat (length gs)))].
Proof.
  intros n gs Hsrc Hlines Hne Hok Hmax Hfuel.
  by apply (chunkCSV_run_groups w path prefix T src header data fuel).
Qed.

Lemma chunkCSV_parts_are_groups_witness :
  ∃ w',
    chunkCSV 10 table_disk "a.csv" "p" 7 = Done w' ∧
    concat [[text "1,a"; text "2,b"]; [text "3,c"]] = [text "1,a"; text "2,b"; text "3,c"] ∧
    (∀ (i : nat) g, [[text "1,a"; text "2,b"]; [text "3,c"]] !! i = Some g →
       files w' !! part_name "p" ".csv" (1 + Z.of_nat i) =
         Some (unlines (text "id,val" :: g))) ∧
    (∀ f, (∀ i, 1 ≤ i ≤ 2 → f ≠ part_name "p" ".csv" i) →
          files w' !! f = files table_disk !! f) ∧
    console w' = [(Cout, csv_files_created 2)].
Proof.
  apply (chunkCSV_parts_are_groups table_disk "a.csv" "p" 7 table_src
           (text "id,val") [text "1,a"; text "2,b"; text "3,c"] 10).
  - reflexivity.
  - vm_compute. reflexivity.
  - names_differ.
  - none_denied.
  - vm_compute. reflexivity.
  - vm_compute. reflexivity.
Defined.

(** X15. [chunkCSV] closes a part only when it has to.  The run ends, and
    its parts are the header followed by the groups [gs] of a division of
    the data lines, in order ([concat gs = data]), whose number is the
    number of files reported; of two consecutive parts, the data lines of
    the first together with the first data line of the second exceed the
    threshold, unless the data lines of the first are all empty. *)
Theorem csv_parts_are_maximal (w : world) (path prefix : string) (T : Z)
    (src header : bytes) (data : list bytes) (fuel : nat) :
  let n := Z.of_nat (length data) in
  files w !! path = Some src →
  lines_of src = header :: data →
  Z.of_nat (length src) < ULONG_MOD →
  (∀ i, 1 ≤ i ≤ n → path ≠ part_name prefix ".csv" i) →
  (∀ i, 1 ≤ i ≤ n → part_name prefix ".csv" i ∉ denied w) →
  n < INT_MAX →
  n < Z.of_nat fuel →
  ∃ (w' : world) (gs : list (list bytes)),
    chunkCSV fuel w path prefix T = Done w' ∧
    concat gs = data ∧
    (∀ (i : nat) g, gs !! i = Some g →
       files w' !! part_name prefix ".csv" (1 + Z.of_nat i) = Some (unlines (header :: g))) ∧
    console w' = console w ++ [(Cout, csv_files_created (Z.of_nat (length gs)))] ∧
    (∀ (i : nat) g l' g', gs !! i = Some g → gs !! S i = Some (l' :: g') →
       total g = 0 ∨ T < total g + Z.of_nat (length l')).
Proof.
  intros n Hsrc Hlines Hsize Hne Hok Hmax Hfuel.
  destruct (chunkCSV_run_groups w path prefix T src header data fuel)
    as (w' & Hrun & Hcat & Hparts & _ & Hcon); try done.
  pose proof (total_lines_of src) as Htot. rewrite Hlines in Htot. cbn [total] in Htot.
  exists w', (csv_groups T data).
  split; [done |]. split; [done |]. split; [done |]. split; [done |].
  by destruct (csv_split_maximal T data 0 ltac:(lia) ltac:(lia)) as [_ H].
Qed.

Lemma csv_parts_are_maximal_witness :
  ∃ (w' : world) (gs : list (list bytes)),
    chunkCSV 10 table_disk "a.csv" "p" 7 = Done w' ∧
    concat gs = [text "1,a"; text "2,b"; text "3,c"] ∧
    (∀ (i : nat) g, gs !! i = Some g →
       files w' !! part_name "p" ".csv" (1 + Z.of_nat i) =
         Some (unlines (text "id,val" :: g))) ∧
    console w' = [(Cout, csv_files_created (Z.of_nat (length gs)))] ∧
    (∀ (i : nat) g l' g', gs !! i = Some g → gs !! S i = Some (l' :: g') →
       total g = 0 ∨ 7 < total g + Z.of_nat (length l')).
Proof.
  apply (csv_parts_are_maximal table_disk "a.csv" "p" 7 table_src
           (text "id,val") [text "1,a"; text "2,b"; text "3,c"] 10).
  - reflexivity.
  - vm_compute. reflexivity.
  - vm_compute. reflexivity.
  - names_differ.
  - none_denied.
  - vm_compute. reflexivity.
  - vm_compute. reflexivity.
Defined.

(** ** The line-oriented joiner *)



(** X17. Without part 1 [joinCSV] creates an empty output, not even a
    header, and reports completion. *)
Theorem joinCSV_missing_first_part (w : world) (prefix out : string) (fuel : nat) :
  files w !! part_name prefix ".csv" 1 = None →
  out ∉ denied w →
  out ≠ part_name prefix ".csv" 1 →
  (1 ≤ fuel)%nat →
  ∃ w',
    joinCSV fuel w prefix out = Done w' ∧
    files w' = <[out := []]> (files w) ∧
    console w' = console w ++ [(Cout, "CSV file assembly complete!"%string)].
Proof.
  intros Hgap Hok Hout Hfuel.
  destruct (joinCSV_spec prefix out [] w fuel) as (w' & Hrun & Hfiles & _ & Hcon).
  - done.
  - done.
  - done.
  - done.
  - intros i Hi. cbn [length] in Hi. by replace i with 1 by lia.
  - unfold INT_MAX. cbn [length]. lia.
  - cbn [length concat]. lia.
  - by exists w'.
Qed.

Lemma joinCSV_missing_first_part_witness :
  ∃ w',
    joinCSV 1 notes_disk "p" "output.csv" = Done w' ∧
    files w' = <["output.csv"%string := []]> (files notes_disk) ∧
    console w' = [(Cout, "CSV file assembly complete!"%string)].
Proof.
  apply (joinCSV_missing_first_part notes_disk "p" "output.csv" 1).
  - vm_compute. reflexivity.
  - none_denied.
  - vm_compute. discriminate.
  - lia.
Defined.

(** ** Both line-oriented steps *)


(** Chunking a table and joining its parts, with anything printed in
    between. *)
Lemma chunkCSV_then_joinCSV (w : world) (path prefix out : string) (T : Z)
    (src header : bytes) (data : list bytes) (fuel1 fuel2 : nat) :
  let n := Z.of_nat (length data) in
  files w !! path = Some src →
  lines_of src = header :: data →
  data ≠ [] →
  (∀ i, 1 ≤ i ≤ n + 1 → files w !! part_name prefix ".csv" i = None) →
  (∀ i, 1 ≤ i ≤ n → part_name prefix ".csv" i ∉ denied w) →
  out ∉ denied w →
  (∀ i, 1 ≤ i ≤ n + 1 → out ≠ part_name prefix ".csv" i) →
  n < INT_MAX →
  n < Z.of_nat fuel1 → 3 * n < Z.of_nat fuel2 →
  ∃ w1,
    chunkCSV fuel1 w path prefix T = Done w1 ∧
    ∀ w1', files w1' = files w1 → denied w1' = denied w1 →
      ∃ w2,
        joinCSV fuel2 w1' prefix out = Done w2 ∧
        files w2 !! out = Some (unlines (header :: data)).
Proof.
  intros n Hsrc Hlines Hdata Hfresh Hok Hout Hout' Hmax Hf1 Hf2.
  destruct (chunkCSV_spec prefix T w path src header data fuel1)
    as (gs & w1 & Hrun & Hcat & Hnonempty & Hparts & Hother & Hden & _); try done.
  { intros i Hi E. specialize (Hfresh i ltac:(lia)). by rewrite <- E, Hsrc in Hfresh. }
  exists w1. split; [done |]. intros w1' Hf1' Hd1'.
  assert (Hlen : (length gs ≤ length data)%nat).
  { rewrite <- Hcat. by apply groups_length. }
  assert (Hlf : Forall (λ l, LF ∉ l) (header :: data)).
  { rewrite <- Hlines. apply lines_of_no_LF. }
  apply Forall_cons in Hlf as [Hlfh Hlfd].
  set (ps := map (cons header) gs).
  assert (Hpslen : length ps = length gs) by apply length_map.
  assert (Hpscat : (length (concat ps) ≤ length gs + length data)%nat).
  { unfold ps. rewrite <- Hcat. clear. induction gs as [|g gs IH]; cbn; [done |].
    rewrite !length_app. lia. }
  destruct (joinCSV_spec prefix out ps w1' fuel2) as (w2 & Hjoin & Hfiles & _).
  - intros i p Hp. unfold ps in Hp. rewrite list_lookup_fmap in Hp.
    destruct (gs !! i) as [g|] eqn:Hg; [|done]. injection Hp as <-.
    rewrite Hf1'. by apply Hparts.
  - unfold ps. apply Forall_fmap. rewrite <- Hcat in Hlfd.
    apply Forall_concat in Hlfd. eapply Forall_impl; [apply Hlfd |].
    intros g Hg. by constructor.
  - rewrite Hpslen, Hf1', Hother.
    + apply Hfresh. lia.
    + intros i Hi E. apply part_name_inj in E. lia.
  - by rewrite Hd1', Hden.
  - intros i Hi. apply Hout'. lia.
  - lia.
  - lia.
  - exists w2. split; [done |].
    rewrite Hfiles, lookup_insert_eq. do 2 f_equal.
    unfold ps. destruct gs as [|g gs]; [by rewrite <- Hcat in Hdata |].
    cbn. by rewrite joined_headers, <- Hcat.
Qed.



(** ** The extension of a path *)

Lemma substring_whole (s : string) : String.substring 0 (String.length s) s = s.
Proof. induction s as [|a s IH]; [done |]. cbn. by rewrite IH. Qed.

Lemma find_last_of_None (c : ascii) (s : string) :
  find_last_of c s = None → occurs c s = false.
Proof.
  induction s as [|a s IH]; [done |]. cbn.
  destruct (find_last_of c s); [done |]. destruct (Ascii.eqb a c); [done |].
  intros _. by rewrite IH.
Qed.

Lemma find_last_of_Some (c : ascii) (s : string) (i : nat) :
  find_last_of c s = Some i →
  ∃ stem rest, s = stem +:+ String c rest ∧ occurs c rest = false ∧
               substr i s = String c rest.
Proof.
  revert i. induction s as [|a s IH]; intros i; [done |]. cbn [find_last_of].
  destruct (find_last_of c s) as [j|] eqn:Hj.
  - intros [= <-]. destruct (IH j eq_refl) as (stem & rest & -> & Hrest & Hsub).
    exists (String a stem), rest. by repeat split.
  - destruct (Ascii.eqb a c) eqn:Ha; [|done]. intros [= <-].
    apply Ascii.eqb_eq in Ha. subst a.
    exists "", s. repeat split; [by apply find_last_of_None |].
    unfold substr. rewrite Nat.sub_0_r. apply substring_whole.
Qed.

(** X19. The extension taken from a path is the part from its last dot to
    its end: it is empty exactly when the path has no dot, and otherwise it
    starts with the dot and has no other. *)
Theorem extension_of_spec (path : string) :
  (occurs "." path = false ∧ extension_of path = ""%string) ∨
  (∃ stem rest, path = stem +:+ String "." rest ∧
                extension_of path = String "." rest ∧ occurs "." rest = false).
Proof.
  unfold extension_of. destruct (find_last_of "." path) as [i|] eqn:Hi.
  - right. destruct (find_last_of_Some _ _ _ Hi) as (stem & rest & Hp & Hrest & Hsub).
    by exists stem, rest.
  - left. split; [by apply find_last_of_None | done].
Qed.

(** ** [main] *)

Lemma chunk_size_bytes (chunkSizeMB : Z) :
  ((chunkSizeMB * 1024) mod ULONG_MOD * 1024) mod ULONG_MOD =
  (chunkSizeMB * 1048576) mod ULONG_MOD.
Proof.
  unfold ULONG_MOD. rewrite Z.mul_mod_idemp_l by lia. f_equal. lia.
Qed.

Lemma binary_extension_eqb (e : string) :
  binary_extension e →
  String.eqb e ".csv" = false ∧
  String.eqb e ".mp3" || String.eqb e ".mp4" || String.eqb e ".bin" = true.
Proof. by intros [-> | [-> | ->]]. Qed.

(** Chunking a binary file and joining its parts, with anything printed in
    between. *)
Lemma chunkFile_then_joinFile (w : world) (path prefix : string) (T : Z)
    (src : bytes) (fuel1 fuel2 : nat) :
  let ext := extension_of path in
  let out := ("output" +:+ ext)%string in
  let N := Z.of_nat (length src) / T + 1 in
  files w !! path = Some src →
  1 ≤ T →
  (∀ i, 1 ≤ i ≤ N → path ≠ part_name prefix ext i) →
  (∀ i, 1 ≤ i ≤ N → part_name prefix ext i ∉ denied w) →
  files w !! part_name prefix ext (N + 1) = None →
  out ∉ denied w →
  N < INT_MAX →
  N < Z.of_nat fuel1 → N < Z.of_nat fuel2 →
  ∃ w1,
    chunkFile fuel1 w path prefix T = Done w1 ∧
    ∀ w1', files w1' = files w1 → denied w1' = denied w1 →
      ∃ w2,
        joinFile fuel2 w1' prefix out ext = Done w2 ∧
        files w2 !! out = Some src.
Proof.
  intros ext out N Hsrc HT Hne Hok Hgap Hout Hmax Hf1 Hf2.
  destruct (chunkFile_spec prefix T HT w path src fuel1)
    as (ps & w1 & Hrun & Hcat & Hnum & _ & Hparts & Hother & Hden & _); try done.
  fold ext N in Hnum, Hparts, Hother.
  exists w1. split; [done |]. intros w1' Hf1' Hd1'.
  destruct (joinFile_spec prefix out ext ps w1' fuel2) as (w2 & Hjoin & Hfiles & _).
  - intros i p Hp. rewrite Hf1'. by apply Hparts.
  - replace (1 + Z.of_nat (length ps)) with (N + 1) by lia.
    rewrite Hf1', Hother; [done |]. intros i Hi E. apply part_name_inj in E. lia.
  - by rewrite Hd1', Hden.
  - intros i _. apply output_not_part_name.
  - unfold UINT_MOD, INT_MAX in *. lia.
  - lia.
  - exists w2. split; [done |]. by rewrite Hfiles, lookup_insert_eq, Hcat.
Qed.

(** X20. The program on a binary file: for a path with one of the three
    binary extensions and a chunk size of [1] to [2^43 - 1] megabytes,
    [main] ends with return value 0 and leaves in ["output" + extension]
    exactly the bytes of the source.  The chunk size in bytes is
    [chunkSizeMB * 1048576], which for these sizes is at most
    [STREAMSIZE_MAX]; the run is a clean one as for [chunkFile] and
    [joinFile], and the output name never collides with a part name. *)
Theorem main_binary_round_trip (w : world) (path prefix : string) (chunkSizeMB : Z)
    (src : bytes) (fuel : nat) :
  let ext := extension_of path in
  let out := ("output" +:+ ext)%string in
  let N := Z.of_nat (length src) / (chunkSizeMB * 1048576) + 1 in
  binary_extension ext →
  files w !! path = Some src →
  1 ≤ chunkSizeMB < 2 ^ 43 →
  (∀ i, 1 ≤ i ≤ N → path ≠ part_name prefix ext i) →
  (∀ i, 1 ≤ i ≤ N → part_name prefix ext i ∉ denied w) →
  files w !! part_name prefix ext (N + 1) = None →
  out ∉ denied w →
  N < INT_MAX →
  N < Z.of_nat fuel →
  ∃ w',
    main fuel w path prefix chunkSizeMB = Done (w', 0) ∧
    files w' !! out = Some src.
Proof.
  intros ext out N Hext Hsrc HMB Hne Hok Hgap Hout Hmax Hfuel.
  unfold main. cbv zeta. fold ext. destruct (binary_extension_eqb ext Hext) as [-> ->].
  rewrite chunk_size_bytes, Z.mod_small by (unfold ULONG_MOD; lia).
  match goal with |- context [chunkFile fuel ?w0 _ _ _] => set (w4 := w0) end.
  destruct (chunkFile_then_joinFile w4 path prefix (chunkSizeMB * 1048576) src fuel fuel)
    as (w1 & -> & Hjoin); try done; [lia |].
  destruct (Hjoin (print w1 Cout "Joining the binary file chunks...") eq_refl eq_refl)
    as (w2 & Hrun & Hfiles).
  fold ext out in Hrun, Hfiles. fold out. rewrite Hrun. by exists w2.
Qed.

Lemma main_binary_round_trip_witness :
  ∃ w',
    main 10 song_disk "a.bin" "p" 1 = Done (w', 0) ∧
    files w' !! "output.bin"%string = Some (text "ABCDEFGHIJ").
Proof.
  apply (main_binary_round_trip song_disk "a.bin" "p" 1 (text "ABCDEFGHIJ") 10).
  - right. right. reflexivity.
  - reflexivity.
  - lia.
  - names_differ.
  - none_denied.
  - vm_compute. reflexivity.
  - none_denied.
  - vm_compute. reflexivity.
  - vm_compute. reflexivity.
Defined.

(** X21. The program on a CSV file: for a path with extension [.csv], a
    header line and at least one data line, and any number of megabytes,
    [main] ends with return value 0 and leaves in [output.csv] the lines of
    the source, each with one line feed.  The run is a clean one as for
    [chunkCSV] and [joinCSV]. *)
Theorem main_csv_round_trip (w : world) (path prefix : string) (chunkSizeMB : Z)
    (src header : bytes) (data : list bytes) (fuel : nat) :
  let n := Z.of_nat (length data) in
  extension_of path = ".csv"%string →
  files w !! path = Some src →
  lines_of src = header :: data →
  data ≠ [] →
  (∀ i, 1 ≤ i ≤ n + 1 → files w !! part_name prefix ".csv" i = None) →
  (∀ i, 1 ≤ i ≤ n → part_name prefix ".csv" i ∉ denied w) →
  "output.csv"%string ∉ denied w →
  n < INT_MAX →
  3 * n < Z.of_nat fuel →
  ∃ w',
    main fuel w path prefix chunkSizeMB = Done (w', 0) ∧
    files w' !! "output.csv"%string = Some (unlines (header :: data)).
Proof.
  intros n Hext Hsrc Hlines Hdata Hfresh Hok Hout Hmax Hfuel.
  unfold main. cbv zeta. rewrite Hext. cbn [String.eqb Ascii.eqb Bool.eqb].
  match goal with |- context [chunkCSV fuel ?w0 _ _ ?T0] => set (w4 := w0); set (T := T0) end.
  destruct (chunkCSV_then_joinCSV w4 path prefix "output.csv" T src header data fuel fuel)
    as (w1 & -> & Hjoin); try done; try (subst n; lia).
  { intros i _. apply (output_not_part_name prefix ".csv" i). }
  destruct (Hjoin (print w1 Cout "Joining the CSV file chunks...") eq_refl eq_refl)
    as (w2 & -> & Hfiles).
  by exists w2.
Qed.

Lemma main_csv_round_trip_witness :
  ∃ w',
    main 10 table_disk "a.csv" "p" 1 = Done (w', 0) ∧
    files w' !! "output.csv"%string =
      Some (unlines [text "id,val"; text "1,a"; text "2,b"; text "3,c"]).
Proof.
  apply (main_csv_round_trip table_disk "a.csv" "p" 1 table_src
           (text "id,val") [text "1,a"; text "2,b"; text "3,c"] 10).
  - reflexivity.
  - reflexivity.
  - vm_compute. reflexivity.
  - discriminate.
  - intros i _. apply (disk_single_fresh "a.csv"). intros E. vm_compute in E. discriminate E.
  - none_denied.
  - none_denied.
  - vm_compute. reflexivity.
  - vm_compute. reflexivity.
Defined.

(** X22. Any other extension is refused: when the part of the path from its
    last dot on is none of [.csv], [.mp3], [.mp4], [.bin] (the comparison
    is exact, so [.CSV] or no extension at all are refused too), [main]
    prints the refusal, returns 0 and touches no file. *)
Theorem main_unsupported_extension (w : world) (path prefix : string)
    (chunkSizeMB : Z) (fuel : nat) :
  extension_of path ≠ ".csv"%string →
  ¬ binary_extension (extension_of path) →
  main fuel w path prefix chunkSizeMB =
    Done ({| files := files w; denied := denied w;
             console := console w ++ prompts ++ [(Cout, "Unsupported file type!"%string)] |},
          0).
Proof.
  intros Hcsv Hbin. unfold main. cbv zeta.
  apply String.eqb_neq in Hcsv. rewrite Hcsv.
  assert (String.eqb (extension_of path) ".mp3" || String.eqb (extension_of path) ".mp4"
          || String.eqb (extension_of path) ".bin" = false) as ->.
  { apply orb_false_iff. split; [apply orb_false_iff; split |]; apply String.eqb_neq;
      intros E; apply Hbin; unfold binary_extension; auto. }
  unfold print. cbn [files denied console]. do 2 f_equal.
  unfold prompts. by rewrite <- !app_assoc.
Qed.

Lemma main_unsupported_extension_witness :
  main 0 notes_disk "notes.txt" "p" 1 =
    Done ({| files := files notes_disk; denied := denied notes_disk;
             console := console notes_disk ++ prompts ++
                        [(Cout, "Unsupported file type!"%string)] |}, 0).
Proof.
  apply (main_unsupported_extension notes_disk "notes.txt" "p" 1 0).
  - vm_compute. discriminate.
  - vm_compute. intros [H | [H | H]]; discriminate H.
Defined.

(** X23. A chunk size that comes out as 0 bytes, as for 0 megabytes (or a
    multiple of [2^44], which wraps to 0), never lets [main] finish on a
    binary file that exists. *)
Theorem main_zero_chunk_size (w : world) (path prefix : string) (chunkSizeMB : Z)
    (src : bytes) (fuel : nat) :
  binary_extension (extension_of path) →
  files w !! path = Some src →
  (chunkSizeMB * 1048576) mod ULONG_MOD = 0 →
  main fuel w path prefix chunkSizeMB = OutOfFuel ∨
  main fuel w path prefix chunkSizeMB = Overflow.
Proof.
  intros Hext Hsrc Hzero. unfold main. cbv zeta.
  destruct (binary_extension_eqb _ Hext) as [-> ->]. rewrite chunk_size_bytes, Hzero.
  match goal with |- context [chunkFile fuel ?w0 _ _ _] => set (w4 := w0) end.
  destruct (chunkFile_zero_stuck w4 path prefix src fuel Hsrc) as [-> | ->];
    [by left | by right].
Qed.

Lemma main_zero_chunk_size_witness :
  main 100 song_disk "a.bin" "p" 0 = OutOfFuel ∨
  main 100 song_disk "a.bin" "p" 0 = Overflow.
Proof.
  apply (main_zero_chunk_size song_disk "a.bin" "p" 0 (text "ABCDEFGHIJ") 100).
  - right. right. reflexivity.
  - reflexivity.
  - reflexivity.
Defined.

(** X24. A binary path that cannot be opened does not stop the program:
    [chunkFile] prints its error, and [main] goes on to join.  With no
    part 1 on disk the result is an empty output file and the message of a
    completed assembly. *)
Theorem main_missing_binary_source (w : world) (path prefix : string)
    (chunkSizeMB : Z) (fuel : nat) :
  let ext := extension_of path in
  let out := ("output" +:+ ext)%string in
  binary_extension ext →
  files w !! path = None →
  files w !! part_name prefix ext 1 = None →
  out ∉ denied w →
  (1 ≤ fuel)%nat →
  main fuel w path prefix chunkSizeMB =
    Done ({| files := <[out := []]> (files w); denied := denied w;
             console := console w ++ prompts ++
               [(Cout, "Chunking the binary file..."%string);
                (Cout, "Error opening file!"%string);
                (Cout, "Joining the binary file chunks..."%string);
                (Cout, "Binary file assembly complete!"%string)] |}, 0).
Proof.
  intros ext out Hext Hsrc Hgap Hout Hfuel. unfold main. cbv zeta. fold ext out.
  destruct (binary_extension_eqb ext Hext) as [-> ->].
  unfold chunkFile, ifstream_open. cbn [print files]. rewrite Hsrc.
  match goal with |- context [joinFile fuel ?w0 _ _ _] => set (w6 := w0) end.
  destruct (joinFile_spec prefix out ext [] w6 fuel) as (w' & -> & Hfiles & Hden & Hcon).
  - done.
  - done.
  - done.
  - intros i _. apply output_not_part_name.
  - unfold UINT_MOD. cbn [length]. lia.
  - cbn [length]. lia.
  - destruct w' as [fs dn cn]. cbn in Hfiles, Hden, Hcon. subst fs dn cn.
    do 3 f_equal. unfold prompts. by rewrite <- !app_assoc.
Qed.

Lemma main_missing_binary_source_witness :
  main 1 notes_disk "song.mp3" "p" 1 =
    Done ({| files := <["output.mp3"%string := []]> (files notes_disk);
             denied := denied notes_disk;
             console := console notes_disk ++ prompts ++
               [(Cout, "Chunking the binary file..."%string);
                (Cout, "Error opening file!"%string);
                (Cout, "Joining the binary file chunks..."%string);
                (Cout, "Binary file assembly complete!"%string)] |}, 0).
Proof.
  apply (main_missing_binary_source notes_disk "song.mp3" "p" 1 1).
  - left. reflexivity.
  - vm_compute. reflexivity.
  - vm_compute. reflexivity.
  - none_denied.
  - lia.
Defined.

(** X25. The program on a CSV file without data lines: no part is written,
    so the joiner finds none (none is on disk under the prefix) and
    [output.csv] is created empty: the header line of the source is not
    in it. *)
Theorem main_csv_without_data (w : world) (path prefix : string) (chunkSizeMB : Z)
    (src h : bytes) (fuel : nat) :
  extension_of path = ".csv"%string →
  files w !! path = Some src →
  LF ∉ h →
  src = h ∨ src = h ++ [LF] →
  files w !! part_name prefix ".csv" 1 = None →
  "output.csv"%string ∉ denied w →
  (1 ≤ fuel)%nat →
  main fuel w path prefix chunkSizeMB =
    Done ({| files := <["output.csv"%string := []]> (files w); denied := denied w;
             console := console w ++ prompts ++
               [(Cout, "Chunking the CSV file..."%string);
                (Cout, "CSV chunking complete! 0 files created."%string);
                (Cout, "Joining the CSV file chunks..."%string);
                (Cout, "CSV file assembly complete!"%string)] |}, 0).
Proof.
  intros Hext Hsrc Hlf Hshape Hgap Hout Hfuel.
  assert (Hlines : (length (lines_of src) ≤ 1)%nat).
  { destruct Hshape as [->| ->].
    - destruct h as [|b h]; [cbn; lia |]. rewrite lines_of_single by done. cbn. lia.
    - replace (h ++ [LF]) with (unlines [h]) by (unfold unlines; cbn; by rewrite app_nil_r).
      rewrite lines_of_unlines by (by repeat constructor). cbn. lia. }
  unfold main. cbv zeta. rewrite Hext. cbn [String.eqb Ascii.eqb Bool.eqb].
  match goal with |- context [chunkCSV fuel ?w0 _ _ ?T0] => set (w4 := w0); set (T := T0) end.
  rewrite (chunkCSV_no_data prefix T w4 path src fuel) by done.
  match goal with |- context [joinCSV fuel ?w0 _ _] => set (w6 := w0) end.
  destruct (joinCSV_spec prefix "output.csv" [] w6 fuel) as (w' & -> & Hfiles & Hden & Hcon).
  - done.
  - done.
  - done.
  - done.
  - intros i _. apply (output_not_part_name prefix ".csv" i).
  - unfold INT_MAX. cbn [length]. lia.
  - cbn [length concat]. lia.
  - destruct w' as [fs dn cn]. cbn in Hfiles, Hden, Hcon. subst fs dn cn.
    do 3 f_equal. unfold prompts. by rewrite <- !app_assoc.
Qed.

Lemma main_csv_without_data_witness :
  main 1 header_only_disk "a.csv" "p" 1 =
    Done ({| files := <["output.csv"%string := []]> (files header_only_disk);
             denied := denied header_only_disk;
             console := console header_only_disk ++ prompts ++
               [(Cout, "Chunking the CSV file..."%string);
                (Cout, "CSV chunking complete! 0 files created."%string);
                (Cout, "Joining the CSV file chunks..."%string);
                (Cout, "CSV file assembly complete!"%string)] |}, 0).
Proof.
  apply (main_csv_without_data header_only_disk "a.csv" "p" 1
           (unlines [text "id,val"]) (text "id,val") 1).
  - reflexivity.
  - reflexivity.
  - apply no_LF_check. reflexivity.
  - right. reflexivity.
  - vm_compute. reflexivity.
  - none_denied.
  - lia.
Defined.
